(** * Infrastructure alert dashboard: the Redux reducers and the calendar
      preparation, embedded from the TypeScript sources.

    - [Infrastructure]: frontend/src/features/infrastructure/infrastructureSlice.ts
    - [Alerts]: the alerts slice (updateAlertStatus and its siblings)
    - [Ui]: frontend/src/features/ui/uiSlice.ts
    - [Calendar]: prepareCalendarData of the predictions page and the
      banding of frontend/src/components/CalendarHeatmap/CalendarHeatmap.tsx

    Conventions of the embedding.
    - A reducer written against an Immer draft is a function from the old
      state to the new one; successive statements thread the state.
    - [Record<string, T>] used as a dictionary is a [gmap string T]; an
      object stored in it is truthy, so [if (state.components[k])] is a
      presence test for the keys of the object. The components
      dictionary is read and written under arbitrary identifiers: there
      the names a plain object inherits from [Object.prototype] are
      modelled too (see [Infrastructure.property]), and a reducer that
      throws is a reducer that returns [TypeError].
    - Arrays are lists: [push x] is [l ++ [x]], [unshift x] is [x :: l],
      [includes x] is [bool_decide (x ∈ l)], [filter] is stdpp's [filter],
      [slice(0, n)] is [take n].
    - [new Date().toISOString()], [Date.now()] and [Math.random()] are
      readings of the environment: each reading is an explicit argument of
      the reducer, one argument per call in the source. *)

From Stdlib Require Import ZArith String List Floats.
From stdpp Require Import gmap strings list fin_maps pretty.

Open Scope string_scope.

(** JavaScript truthiness of an optional string ([undefined] and the empty
    string are falsy). *)
Definition truthy (o : option string) : bool :=
  match o with
  | Some s => negb (String.eqb s "")
  | None => false
  end.

(** Values of type [any] that occur in metadata and history entries. *)
Inductive Json : Type :=
| JNull
| JBool (b : bool)
| JNum (z : Z)
| JStr (s : string).

(* ===================================================================== *)
Module Infrastructure.

Inductive ComponentType : Set :=
| SERVER | DATABASE | NETWORK | STORAGE | APPLICATION
| SERVICE | CONTAINER | LOAD_BALANCER | CACHE | QUEUE.

Inductive ComponentStatus : Set :=
| HEALTHY | DEGRADED | WARNING | CRITICAL | UNKNOWN | MAINTENANCE.

Record InfrastructureComponent : Type := mkComponent {
  component_id : string;
  name : string;
  component_type : ComponentType;
  status : ComponentStatus;
  metadata : option (gmap string Json);
  dependencies : list string;
  dependents : list string;
  location : option string;
  owner : option string;
  created_at : string;
  updated_at : string;
  active_alerts : list string
}.

Record Filters : Type := mkFilters {
  f_type : option ComponentType;
  f_status : option ComponentStatus;
  f_location : option string;
  f_owner : option string;
  f_hasAlerts : option bool
}.

Record InfrastructureState : Type := mkState {
  components : gmap string InfrastructureComponent;
  selectedComponent : option string;
  loading : bool;
  error : option string;
  filters : Filters
}.

Definition initialState : InfrastructureState :=
  mkState ∅ None false None (mkFilters None None None None None).

(** Field assignments on a component ([c.f = v]). *)
Definition set_status (v : ComponentStatus) (c : InfrastructureComponent) :=
  mkComponent (component_id c) (name c) (component_type c) v (metadata c)
    (dependencies c) (dependents c) (location c) (owner c) (created_at c)
    (updated_at c) (active_alerts c).

Definition set_updated_at (v : string) (c : InfrastructureComponent) :=
  mkComponent (component_id c) (name c) (component_type c) (status c)
    (metadata c) (dependencies c) (dependents c) (location c) (owner c)
    (created_at c) v (active_alerts c).

Definition set_dependencies (v : list string) (c : InfrastructureComponent) :=
  mkComponent (component_id c) (name c) (component_type c) (status c)
    (metadata c) v (dependents c) (location c) (owner c) (created_at c)
    (updated_at c) (active_alerts c).

Definition set_dependents (v : list string) (c : InfrastructureComponent) :=
  mkComponent (component_id c) (name c) (component_type c) (status c)
    (metadata c) (dependencies c) v (location c) (owner c) (created_at c)
    (updated_at c) (active_alerts c).

Definition set_active_alerts (v : list string) (c : InfrastructureComponent) :=
  mkComponent (component_id c) (name c) (component_type c) (status c)
    (metadata c) (dependencies c) (dependents c) (location c) (owner c)
    (created_at c) (updated_at c) v.

(** [state.components = m] *)
Definition set_components (m : gmap string InfrastructureComponent)
    (s : InfrastructureState) : InfrastructureState :=
  mkState m (selectedComponent s) (loading s) (error s) (filters s).

(** [Array.prototype.includes] on identifiers. *)
Definition includes (l : list string) (x : string) : bool :=
  bool_decide (x ∈ l).

(** [l.filter(id => id !== x)] *)
Definition without (x : string) (l : list string) : list string :=
  filter (λ id, id ≠ x) l.

(** updateComponentStatus(state, { componentId, status }) *)
Definition updateComponentStatus (now : string) (componentId : string)
    (st : ComponentStatus) (s : InfrastructureState) : InfrastructureState :=
  match components s !! componentId with
  | Some c =>
      set_components
        (<[componentId := set_updated_at now (set_status st c)]> (components s)) s
  | None => s
  end.

(** deleteComponent(state, componentId) *)
Definition deleteComponent (componentId : string)
    (s : InfrastructureState) : InfrastructureState :=
  mkState (delete componentId (components s))
    (if bool_decide (selectedComponent s = Some componentId)
     then None else selectedComponent s)
    (loading s) (error s) (filters s).

(** ** Reading the dictionary

    [state.components] is a plain object. [state.components[k]] yields the
    component stored under [k] when [k] is one of its keys; otherwise it
    yields what [Object.prototype] holds under that name, or [undefined].
    [objectPrototype] lists the property names of the standard
    [Object.prototype]. The values found there are functions, and for
    [__proto__] the prototype itself: truthy values that have no
    [dependencies], [dependents] or [active_alerts], so that calling
    [.includes] or [.filter] on those raises a TypeError. *)
Definition objectPrototype : list string :=
  ["constructor"; "__defineGetter__"; "__defineSetter__"; "hasOwnProperty";
   "__lookupGetter__"; "__lookupSetter__"; "isPrototypeOf";
   "propertyIsEnumerable"; "toString"; "valueOf"; "__proto__";
   "toLocaleString"].

Inductive Property : Type :=
| OwnComponent (c : InfrastructureComponent)
| InheritedValue
| Undefined.

(** [state.components[k]] *)
Definition property (m : gmap string InfrastructureComponent) (k : string)
    : Property :=
  match m !! k with
  | Some c => OwnComponent c
  | None => if bool_decide (k ∈ objectPrototype) then InheritedValue else Undefined
  end.

(** What a dispatch comes to. [Done s] is the state the reducer returns.
    [TypeError]: the reducer throws, the draft is discarded and the store
    keeps the state it had. [ProtoAssigned]: the reducer assigned to the
    key [__proto__] of the dictionary, which files nothing under that key
    (the assignment reaches the prototype setter); what the store is after
    that is not modelled. *)
Inductive Outcome : Type :=
| Done (s : InfrastructureState)
| TypeError
| ProtoAssigned.

(** The next statement of a reducer runs on the draft the previous one
    left, unless that one has thrown. *)
Definition andThen (o : Outcome) (f : InfrastructureState → Outcome) : Outcome :=
  match o with
  | Done s => f s
  | TypeError => TypeError
  | ProtoAssigned => ProtoAssigned
  end.

(** The state of the store after a dispatch from state [s]. *)
Definition storeAfter (s : InfrastructureState) (o : Outcome)
    : option InfrastructureState :=
  match o with
  | Done s' => Some s'
  | TypeError => Some s
  | ProtoAssigned => None
  end.

(** addComponent(state, payload): [state.components[payload.component_id] = payload] *)
Definition addComponent (c : InfrastructureComponent)
    (s : InfrastructureState) : Outcome :=
  if bool_decide (component_id c = "__proto__") then ProtoAssigned
  else Done (set_components (<[component_id c := c]> (components s)) s).

(** updateComponent(state, payload): the same assignment. *)
Definition updateComponent (c : InfrastructureComponent)
    (s : InfrastructureState) : Outcome :=
  if bool_decide (component_id c = "__proto__") then ProtoAssigned
  else Done (set_components (<[component_id c := c]> (components s)) s).

(** First statement of addComponentRelationship: add dependency to dependent. *)
Definition add_dependency_side (now : string) (dependentId dependencyId : string)
    (s : InfrastructureState) : Outcome :=
  match property (components s) dependentId with
  | OwnComponent c =>
      if includes (dependencies c) dependencyId then Done s
      else Done (set_components
                   (<[dependentId :=
                        set_updated_at now
                          (set_dependencies (dependencies c ++ [dependencyId]) c)]>
                      (components s)) s)
  | InheritedValue => TypeError
  | Undefined => Done s
  end.

(** Second statement of addComponentRelationship: add dependent to dependency. *)
Definition add_dependent_side (now : string) (dependentId dependencyId : string)
    (s : InfrastructureState) : Outcome :=
  match property (components s) dependencyId with
  | OwnComponent c =>
      if includes (dependents c) dependentId then Done s
      else Done (set_components
                   (<[dependencyId :=
                        set_updated_at now
                          (set_dependents (dependents c ++ [dependentId]) c)]>
                      (components s)) s)
  | InheritedValue => TypeError
  | Undefined => Done s
  end.

(** addComponentRelationship(state, { dependentId, dependencyId });
    [t1] and [t2] are the two clock readings. *)
Definition addComponentRelationship (t1 t2 : string)
    (dependentId dependencyId : string) (s : InfrastructureState) : Outcome :=
  andThen (add_dependency_side t1 dependentId dependencyId s)
    (add_dependent_side t2 dependentId dependencyId).

(** First statement of removeComponentRelationship. *)
Definition remove_dependency_side (now : string)
    (dependentId dependencyId : string) (s : InfrastructureState) : Outcome :=
  match property (components s) dependentId with
  | OwnComponent c =>
      Done (set_components
              (<[dependentId :=
                   set_updated_at now
                     (set_dependencies (without dependencyId (dependencies c)) c)]>
                 (components s)) s)
  | InheritedValue => TypeError
  | Undefined => Done s
  end.

(** Second statement of removeComponentRelationship. *)
Definition remove_dependent_side (now : string)
    (dependentId dependencyId : string) (s : InfrastructureState) : Outcome :=
  match property (components s) dependencyId with
  | OwnComponent c =>
      Done (set_components
              (<[dependencyId :=
                   set_updated_at now
                     (set_dependents (without dependentId (dependents c)) c)]>
                 (components s)) s)
  | InheritedValue => TypeError
  | Undefined => Done s
  end.

(** removeComponentRelationship(state, { dependentId, dependencyId }) *)
Definition removeComponentRelationship (t1 t2 : string)
    (dependentId dependencyId : string) (s : InfrastructureState) : Outcome :=
  andThen (remove_dependency_side t1 dependentId dependencyId s)
    (remove_dependent_side t2 dependentId dependencyId).

(** addAlertToComponent(state, { componentId, alertId }) *)
Definition addAlertToComponent (now : string) (componentId alertId : string)
    (s : InfrastructureState) : Outcome :=
  match property (components s) componentId with
  | OwnComponent c =>
      if includes (active_alerts c) alertId then Done s
      else Done (set_components
                   (<[componentId :=
                        set_updated_at now
                          (set_active_alerts (active_alerts c ++ [alertId]) c)]>
                      (components s)) s)
  | InheritedValue => TypeError
  | Undefined => Done s
  end.

(** removeAlertFromComponent(state, { componentId, alertId }) *)
Definition removeAlertFromComponent (now : string) (componentId alertId : string)
    (s : InfrastructureState) : Outcome :=
  match property (components s) componentId with
  | OwnComponent c =>
      Done (set_components
              (<[componentId :=
                   set_updated_at now
                     (set_active_alerts (without alertId (active_alerts c)) c)]>
                 (components s)) s)
  | InheritedValue => TypeError
  | Undefined => Done s
  end.

(** The edge operations of the slice, as actions with their clock readings. *)
Inductive EdgeAction : Type :=
| AddEdge (t1 t2 : string) (dependentId dependencyId : string)
| RemoveEdge (t1 t2 : string) (dependentId dependencyId : string).

Definition edgeReducer (s : InfrastructureState) (a : EdgeAction) : Outcome :=
  match a with
  | AddEdge t1 t2 d y => addComponentRelationship t1 t2 d y s
  | RemoveEdge t1 t2 d y => removeComponentRelationship t1 t2 d y s
  end.

(** Dispatching a sequence of edge actions, first action first; a dispatch
    that throws leaves the store as it is and the next one runs on it. *)
Fixpoint dispatchEdges (acts : list EdgeAction) (s : InfrastructureState)
    : option InfrastructureState :=
  match acts with
  | [] => Some s
  | a :: rest => storeAfter s (edgeReducer s a) ≫= dispatchEdges rest
  end.

(** ** The reducers on the keys of the store

    What each statement above does to the state when the identifier it
    reads is a key of the store or names nothing at all. These functions
    are not the reducers: they serve to reason about them, and the lemmas
    of the second part ([add_dependency_side_effect] and the like) say when
    a reducer returns what they compute. *)

(** True when [state.components[k]] yields an inherited value. *)
Definition reads_inherited (m : gmap string InfrastructureComponent) (k : string)
    : bool :=
  match m !! k with
  | Some _ => false
  | None => bool_decide (k ∈ objectPrototype)
  end.

(** The first statement of addComponentRelationship when it does not throw. *)
Definition record_dependency (now : string) (dependentId dependencyId : string)
    (s : InfrastructureState) : InfrastructureState :=
  match components s !! dependentId with
  | Some c =>
      if includes (dependencies c) dependencyId then s
      else set_components
             (<[dependentId :=
                  set_updated_at now
                    (set_dependencies (dependencies c ++ [dependencyId]) c)]>
                (components s)) s
  | None => s
  end.

(** Its second statement when it does not throw. *)
Definition record_dependent (now : string) (dependentId dependencyId : string)
    (s : InfrastructureState) : InfrastructureState :=
  match components s !! dependencyId with
  | Some c =>
      if includes (dependents c) dependentId then s
      else set_components
             (<[dependencyId :=
                  set_updated_at now
                    (set_dependents (dependents c ++ [dependentId]) c)]>
                (components s)) s
  | None => s
  end.

(** Both statements in turn. *)
Definition record_edge (t1 t2 : string)
    (dependentId dependencyId : string)
    (s : InfrastructureState) : InfrastructureState :=
  record_dependent t2 dependentId dependencyId
    (record_dependency t1 dependentId dependencyId s).

(** The first statement of removeComponentRelationship when it does not throw. *)
Definition erase_dependency (now : string)
    (dependentId dependencyId : string)
    (s : InfrastructureState) : InfrastructureState :=
  match components s !! dependentId with
  | Some c =>
      set_components
        (<[dependentId :=
             set_updated_at now
               (set_dependencies (without dependencyId (dependencies c)) c)]>
           (components s)) s
  | None => s
  end.

(** Its second statement when it does not throw. *)
Definition erase_dependent (now : string)
    (dependentId dependencyId : string)
    (s : InfrastructureState) : InfrastructureState :=
  match components s !! dependencyId with
  | Some c =>
      set_components
        (<[dependencyId :=
             set_updated_at now
               (set_dependents (without dependentId (dependents c)) c)]>
           (components s)) s
  | None => s
  end.

(** Both statements in turn. *)
Definition erase_edge (t1 t2 : string)
    (dependentId dependencyId : string)
    (s : InfrastructureState) : InfrastructureState :=
  erase_dependent t2 dependentId dependencyId
    (erase_dependency t1 dependentId dependencyId s).

(** addAlertToComponent when it does not throw. *)
Definition register_alert (now : string) (componentId alertId : string)
    (s : InfrastructureState) : InfrastructureState :=
  match components s !! componentId with
  | Some c =>
      if includes (active_alerts c) alertId then s
      else set_components
             (<[componentId :=
                  set_updated_at now
                    (set_active_alerts (active_alerts c ++ [alertId]) c)]>
                (components s)) s
  | None => s
  end.

(** removeAlertFromComponent when it does not throw. *)
Definition unregister_alert (now : string) (componentId alertId : string)
    (s : InfrastructureState) : InfrastructureState :=
  match components s !! componentId with
  | Some c =>
      set_components
        (<[componentId :=
             set_updated_at now
               (set_active_alerts (without alertId (active_alerts c)) c)]>
           (components s)) s
  | None => s
  end.

(** B ∈ A.dependencies ⇔ A ∈ B.dependents, for the components of the store. *)
Definition edge_symmetric (m : gmap string InfrastructureComponent) : Prop :=
  ∀ a b ca cb, m !! a = Some ca → m !! b = Some cb →
    (b ∈ dependencies ca ↔ a ∈ dependents cb).

(** [edge_symmetric] can be decided by running over the store twice. *)
#[global] Instance edge_symmetric_dec m : Decision (edge_symmetric m).
Proof.
  refine (cast_if (decide (map_Forall (λ a ca,
            map_Forall (λ b cb, b ∈ dependencies ca ↔ a ∈ dependents cb) m) m)));
    unfold edge_symmetric, map_Forall in *.
  - intros a b ca cb Ha Hb.
    match goal with H : ∀ i x, _ |- _ => exact (H a ca Ha b cb Hb) end.
  - intros Hs.
    match goal with H : ¬ _ |- _ => apply H end.
    intros a ca Ha b cb Hb. exact (Hs a b ca cb Ha Hb).
Defined.

(** The dependency and dependent lists of the store's key [k] ([[]] when
    [k] is absent), used to state how a reducer changes the edges. *)
Definition deps_of (m : gmap string InfrastructureComponent) (k : string) :=
  from_option dependencies [] (m !! k).

Definition dependents_of (m : gmap string InfrastructureComponent) (k : string) :=
  from_option dependents [] (m !! k).

(** The change each statement of the edge reducers makes to the one
    component it touches. *)
Definition push_dependency (now y : string) (c : InfrastructureComponent) :=
  if includes (dependencies c) y then c
  else set_updated_at now (set_dependencies (dependencies c ++ [y]) c).

Definition push_dependent (now d : string) (c : InfrastructureComponent) :=
  if includes (dependents c) d then c
  else set_updated_at now (set_dependents (dependents c ++ [d]) c).

Definition drop_dependency (now y : string) (c : InfrastructureComponent) :=
  set_updated_at now (set_dependencies (without y (dependencies c)) c).

Definition drop_dependent (now d : string) (c : InfrastructureComponent) :=
  set_updated_at now (set_dependents (without d (dependents c)) c).

(** A two-component store used in the examples: the web tier depends on
    the database, and both sides of the edge are recorded. *)
Definition web : InfrastructureComponent :=
  mkComponent "web" "Web frontend" APPLICATION HEALTHY None
    ["db"] [] None None "2024-01-01T00:00:00.000Z" "2024-01-01T00:00:00.000Z" [].

Definition db : InfrastructureComponent :=
  mkComponent "db" "Orders database" DATABASE HEALTHY None
    [] ["web"] None None "2024-01-01T00:00:00.000Z" "2024-01-01T00:00:00.000Z" ["alert-1"].

Definition exampleState : InfrastructureState :=
  set_components (<["db" := db]> (<["web" := web]> ∅)) initialState.

(** A store holding the web tier alone, with no edge recorded. *)
Definition lonely : InfrastructureComponent :=
  mkComponent "web" "Web frontend" APPLICATION HEALTHY None
    [] [] None None "2024-01-01T00:00:00.000Z" "2024-01-01T00:00:00.000Z" [].

Definition lonelyState : InfrastructureState :=
  set_components (<["web" := lonely]> ∅) initialState.


(** ** The remaining reducers of the slice *)

(** fetchComponentsStart(state) *)
Definition fetchComponentsStart (s : InfrastructureState) : InfrastructureState :=
  mkState (components s) (selectedComponent s) true None (filters s).

(** The [reduce] of fetchComponentsSuccess, from the accumulator [acc]:
    [acc[component.component_id] = component] for each element in turn.
    The accumulator is a plain object too: an element whose identifier is
    [__proto__] is filed under no key, and [None] records that the
    assignment was made. *)
Fixpoint indexInto (acc : gmap string InfrastructureComponent)
    (payload : list InfrastructureComponent)
    : option (gmap string InfrastructureComponent) :=
  match payload with
  | [] => Some acc
  | component :: rest =>
      if bool_decide (component_id component = "__proto__") then None
      else indexInto (<[component_id component := component]> acc) rest
  end.

Definition indexById (payload : list InfrastructureComponent)
    : option (gmap string InfrastructureComponent) :=
  indexInto ∅ payload.

(** fetchComponentsSuccess(state, payload) *)
Definition fetchComponentsSuccess (payload : list InfrastructureComponent)
    (s : InfrastructureState) : Outcome :=
  match indexById payload with
  | Some m => Done (mkState m (selectedComponent s) false (error s) (filters s))
  | None => ProtoAssigned
  end.

(** fetchComponentsFailure(state, message) *)
Definition fetchComponentsFailure (msg : string) (s : InfrastructureState)
    : InfrastructureState :=
  mkState (components s) (selectedComponent s) false (Some msg) (filters s).

(** selectComponent(state, componentId) *)
Definition selectComponent (componentId : string) (s : InfrastructureState)
    : InfrastructureState :=
  mkState (components s) (Some componentId) (loading s) (error s) (filters s).

(** clearSelectedComponent(state) *)
Definition clearSelectedComponent (s : InfrastructureState) : InfrastructureState :=
  mkState (components s) None (loading s) (error s) (filters s).

(** The payload of updateComponentFilters: each key may be missing
    ([None]) or present, and a present key may hold [undefined]
    ([Some None]). *)
Record FilterPatch : Type := mkPatch {
  p_type : option (option ComponentType);
  p_status : option (option ComponentStatus);
  p_location : option (option string);
  p_owner : option (option string);
  p_hasAlerts : option (option bool)
}.

(** One key of [{ ...old, ...patch }]. *)
Definition spread {A : Type} (old : option A) (patch : option (option A)) : option A :=
  match patch with
  | Some v => v
  | None => old
  end.

(** updateComponentFilters(state, payload) *)
Definition updateComponentFilters (p : FilterPatch) (s : InfrastructureState)
    : InfrastructureState :=
  mkState (components s) (selectedComponent s) (loading s) (error s)
    (mkFilters (spread (f_type (filters s)) (p_type p))
               (spread (f_status (filters s)) (p_status p))
               (spread (f_location (filters s)) (p_location p))
               (spread (f_owner (filters s)) (p_owner p))
               (spread (f_hasAlerts (filters s)) (p_hasAlerts p))).

(** clearComponentFilters(state) *)
Definition clearComponentFilters (s : InfrastructureState) : InfrastructureState :=
  mkState (components s) (selectedComponent s) (loading s) (error s)
    (mkFilters None None None None None).

(** The actions of the slice, each with the clock readings its reducer
    takes. *)
Inductive Action : Type :=
| FetchComponentsStart
| FetchComponentsSuccess (payload : list InfrastructureComponent)
| FetchComponentsFailure (msg : string)
| SelectComponent (componentId : string)
| ClearSelectedComponent
| UpdateComponentStatus (now componentId : string) (st : ComponentStatus)
| UpdateComponentFilters (p : FilterPatch)
| ClearComponentFilters
| AddComponent (c : InfrastructureComponent)
| UpdateComponent (c : InfrastructureComponent)
| DeleteComponent (componentId : string)
| AddComponentRelationship (t1 t2 dependentId dependencyId : string)
| RemoveComponentRelationship (t1 t2 dependentId dependencyId : string)
| AddAlertToComponent (now componentId alertId : string)
| RemoveAlertFromComponent (now componentId alertId : string).

(** The slice reducer. *)
Definition reducer (s : InfrastructureState) (a : Action) : Outcome :=
  match a with
  | FetchComponentsStart => Done (fetchComponentsStart s)
  | FetchComponentsSuccess payload => fetchComponentsSuccess payload s
  | FetchComponentsFailure msg => Done (fetchComponentsFailure msg s)
  | SelectComponent k => Done (selectComponent k s)
  | ClearSelectedComponent => Done (clearSelectedComponent s)
  | UpdateComponentStatus now k st => Done (updateComponentStatus now k st s)
  | UpdateComponentFilters p => Done (updateComponentFilters p s)
  | ClearComponentFilters => Done (clearComponentFilters s)
  | AddComponent c => addComponent c s
  | UpdateComponent c => updateComponent c s
  | DeleteComponent k => Done (deleteComponent k s)
  | AddComponentRelationship t1 t2 d y => addComponentRelationship t1 t2 d y s
  | RemoveComponentRelationship t1 t2 d y => removeComponentRelationship t1 t2 d y s
  | AddAlertToComponent now k a => addAlertToComponent now k a s
  | RemoveAlertFromComponent now k a => removeAlertFromComponent now k a s
  end.

(** Dispatching a sequence of actions; [None] once an action has assigned
    to [__proto__]. *)
Fixpoint dispatch (acts : list Action) (s : InfrastructureState)
    : option InfrastructureState :=
  match acts with
  | [] => Some s
  | a :: rest => storeAfter s (reducer s a) ≫= dispatch rest
  end.

(** The actions that assign to the key [__proto__]. *)
Definition assigns_proto (a : Action) : bool :=
  match a with
  | FetchComponentsSuccess payload =>
      bool_decide (Exists (λ c, component_id c = "__proto__") payload)
  | AddComponent c | UpdateComponent c => bool_decide (component_id c = "__proto__")
  | _ => false
  end.

(** updateComponentStatus on [__proto__] finds the prototype itself and
    writes [status] and [updated_at] onto it: the store is unchanged, but
    from then on [Object.prototype] is no longer the standard one. *)
Definition writes_prototype (a : Action) : bool :=
  match a with
  | UpdateComponentStatus _ k _ => bool_decide (k = "__proto__")
  | _ => false
  end.

(** The actions whose payload is stored as a component as it is. *)
Definition stores_payload (a : Action) : bool :=
  match a with
  | FetchComponentsSuccess _ | AddComponent _ | UpdateComponent _ => true
  | _ => false
  end.

(** Every component is filed under its own identifier. *)
Definition key_consistent (m : gmap string InfrastructureComponent) : Prop :=
  ∀ k c, m !! k = Some c → component_id c = k.

(** The change updateComponentStatus, addAlertToComponent and
    removeAlertFromComponent make to the component they touch. *)
Definition stamp_status (now : string) (st : ComponentStatus)
    (c : InfrastructureComponent) : InfrastructureComponent :=
  set_updated_at now (set_status st c).

Definition push_alert (now a : string) (c : InfrastructureComponent)
    : InfrastructureComponent :=
  if includes (active_alerts c) a then c
  else set_updated_at now (set_active_alerts (active_alerts c ++ [a]) c).

Definition drop_alert (now a : string) (c : InfrastructureComponent)
    : InfrastructureComponent :=
  set_updated_at now (set_active_alerts (without a (active_alerts c)) c).

(** What a reducer that rewrites components in place may change. *)
Definition keeps_identity (f : InfrastructureComponent → InfrastructureComponent) :=
  ∀ c, component_id (f c) = component_id c.

Definition keeps_edges (f : InfrastructureComponent → InfrastructureComponent) :=
  ∀ c, dependencies (f c) = dependencies c ∧ dependents (f c) = dependents c.

#[global] Instance key_consistent_dec m : Decision (key_consistent m).
Proof.
  refine (cast_if (decide (map_Forall (λ k c, component_id c = k) m)));
    unfold key_consistent, map_Forall in *; assumption.
Defined.

(** The last element of a list satisfying a test ([None] when none does). *)
Definition last_with {A : Type} (P : A → Prop) `{∀ x, Decision (P x)}
    (l : list A) : option A :=
  snd <$> list_find P (reverse l).

End Infrastructure.

(* ===================================================================== *)
Module Alerts.

Inductive AlertSeverity : Set := CRITICAL | HIGH | MEDIUM | LOW | INFO.

Inductive AlertStatus : Set :=
| NEW | ACKNOWLEDGED | IN_PROGRESS | RESOLVED | CLOSED.

#[global] Instance AlertStatus_eq_dec : EqDecision AlertStatus.
Proof. solve_decision. Defined.

Record AlertUpdate : Type := mkUpdate {
  u_timestamp : string;
  u_field : string;
  old_value : Json;
  new_value : Json;
  updated_by : string;
  u_notes : option string
}.

Record Alert : Type := mkAlert {
  alert_id : string;
  timestamp : string;
  source_component : string;
  alert_type : string;
  severity : AlertSeverity;
  description : string;
  status : AlertStatus;
  affected_components : list string;
  metadata : option (gmap string Json);
  assigned_to : option string;
  resolution_time : option string;
  resolution_notes : option string;
  update_history : option (list AlertUpdate)
}.

(** [state.selectedAlert]: [null], an alert object, or the empty object
    that [{ ...undefined }] evaluates to. *)
Inductive Selected : Type :=
| NoAlert
| AlertCopy (a : Alert)
| EmptyAlert.

Record Filters : Type := mkFilters {
  f_status : option AlertStatus;
  f_severity : option AlertSeverity;
  f_component : option string;
  f_fromDate : option string;
  f_toDate : option string
}.

Record AlertsState : Type := mkState {
  alerts : list Alert;
  selectedAlert : Selected;
  loading : bool;
  error : option string;
  filters : Filters
}.

Definition initialState : AlertsState :=
  mkState [] NoAlert false None (mkFilters None None None None None).

Definition set_status (v : AlertStatus) (a : Alert) : Alert :=
  mkAlert (alert_id a) (timestamp a) (source_component a) (alert_type a)
    (severity a) (description a) v (affected_components a) (metadata a)
    (assigned_to a) (resolution_time a) (resolution_notes a)
    (update_history a).

Definition set_resolution_notes (v : option string) (a : Alert) : Alert :=
  mkAlert (alert_id a) (timestamp a) (source_component a) (alert_type a)
    (severity a) (description a) (status a) (affected_components a)
    (metadata a) (assigned_to a) (resolution_time a) v (update_history a).

Definition set_resolution_time (v : option string) (a : Alert) : Alert :=
  mkAlert (alert_id a) (timestamp a) (source_component a) (alert_type a)
    (severity a) (description a) (status a) (affected_components a)
    (metadata a) (assigned_to a) v (resolution_notes a) (update_history a).

(** [state.alerts.find(a => a.alert_id === alertId)], with the position of
    the object found: the reducer mutates that element of the array. *)
Definition findAlert (alertId : string) (l : list Alert) : option (nat * Alert) :=
  list_find (λ a, alert_id a = alertId) l.

(** The body of [if (alert) { ... }] in updateAlertStatus. *)
Definition applyStatus (now : string) (st : AlertStatus) (notes : option string)
    (a : Alert) : Alert :=
  let a1 := set_status st a in
  let a2 := if truthy notes then set_resolution_notes notes a1 else a1 in
  if bool_decide (st = RESOLVED) && negb (truthy (resolution_time a2))
  then set_resolution_time (Some now) a2
  else a2.

(** updateAlertStatus(state, { alertId, status, notes }) *)
Definition updateAlertStatus (now : string) (alertId : string)
    (st : AlertStatus) (notes : option string) (s : AlertsState) : AlertsState :=
  let alert := prod_map id (applyStatus now st notes) <$> findAlert alertId (alerts s) in
  let alerts' :=
    match alert with
    | Some (i, a') => <[i := a']> (alerts s)
    | None => alerts s
    end in
  let selected' :=
    match selectedAlert s with
    | AlertCopy sel =>
        if bool_decide (alert_id sel = alertId)
        then match alert with
             | Some (_, a') => AlertCopy a'
             | None => EmptyAlert
             end
        else AlertCopy sel
    | other => other
    end in
  mkState alerts' selected' (loading s) (error s) (filters s).

(** addNewAlert(state, alert) *)
Definition addNewAlert (a : Alert) (s : AlertsState) : AlertsState :=
  mkState (a :: alerts s) (selectedAlert s) (loading s) (error s) (filters s).

(** selectAlert(state, alertId) *)
Definition selectAlert (alertId : string) (s : AlertsState) : AlertsState :=
  mkState (alerts s)
    (from_option (λ p, AlertCopy p.2) NoAlert (findAlert alertId (alerts s)))
    (loading s) (error s) (filters s).

(** One dispatch of updateAlertStatus, with its clock reading. *)
Record StatusUpdate : Type := mkStatusUpdate {
  su_now : string;
  su_alertId : string;
  su_status : AlertStatus;
  su_notes : option string
}.

Definition statusReducer (s : AlertsState) (u : StatusUpdate) : AlertsState :=
  updateAlertStatus (su_now u) (su_alertId u) (su_status u) (su_notes u) s.

Definition dispatchUpdates (us : list StatusUpdate) (s : AlertsState) : AlertsState :=
  fold_left statusReducer us s.

(** The order of the state machine new → acknowledged → in_progress →
    resolved → closed; a transition is backward when it lowers the rank. *)
Definition rank (st : AlertStatus) : nat :=
  match st with
  | NEW => 0 | ACKNOWLEDGED => 1 | IN_PROGRESS => 2 | RESOLVED => 3 | CLOSED => 4
  end.

Definition backward (old new : AlertStatus) : Prop := rank new < rank old.

(** Number of history entries of an alert ([undefined] counts as none). *)
Definition history_length (a : Alert) : nat :=
  from_option length 0 (update_history a).

(** Example alerts: one acknowledged, one closed, one new with an empty
    history. *)
Definition diskAlert : Alert :=
  mkAlert "alert-1" "2024-03-01T08:00:00.000Z" "db" "disk_full" HIGH
    "Disk usage above 95%" ACKNOWLEDGED ["db"; "web"] None (Some "alice")
    None None (Some [mkUpdate "2024-03-01T08:05:00.000Z" "status"
                       (JStr "new") (JStr "acknowledged") "alice" None]).

Definition closedAlert : Alert :=
  mkAlert "alert-2" "2024-03-01T07:00:00.000Z" "web" "latency" LOW
    "Latency above threshold" CLOSED ["web"] None None
    (Some "2024-03-01T07:30:00.000Z") (Some "restarted") (Some []).

Definition freshAlert : Alert :=
  mkAlert "alert-3" "2024-03-01T09:00:00.000Z" "cache" "eviction" MEDIUM
    "Eviction rate high" NEW ["cache"] None None None None (Some []).

Definition exampleState : AlertsState :=
  mkState [diskAlert; closedAlert; freshAlert] NoAlert false None
    (mkFilters None None None None None).


(** ** The remaining reducers of the slice *)

(** fetchAlertsStart(state) *)
Definition fetchAlertsStart (s : AlertsState) : AlertsState :=
  mkState (alerts s) (selectedAlert s) true None (filters s).

(** fetchAlertsSuccess(state, payload) *)
Definition fetchAlertsSuccess (payload : list Alert) (s : AlertsState) : AlertsState :=
  mkState payload (selectedAlert s) false (error s) (filters s).

(** fetchAlertsFailure(state, message) *)
Definition fetchAlertsFailure (msg : string) (s : AlertsState) : AlertsState :=
  mkState (alerts s) (selectedAlert s) false (Some msg) (filters s).

(** clearSelectedAlert(state) *)
Definition clearSelectedAlert (s : AlertsState) : AlertsState :=
  mkState (alerts s) NoAlert (loading s) (error s) (filters s).

(** [state.selectedAlert && state.selectedAlert.alert_id === alertId]: the
    empty object is truthy but has no alert_id. *)
Definition selectedIs (alertId : string) (sel : Selected) : bool :=
  match sel with
  | AlertCopy a => bool_decide (alert_id a = alertId)
  | NoAlert | EmptyAlert => false
  end.

(** updateAlert(state, payload) *)
Definition updateAlert (payload : Alert) (s : AlertsState) : AlertsState :=
  match findAlert (alert_id payload) (alerts s) with
  | Some (index, _) =>
      mkState (<[index := payload]> (alerts s))
        (if selectedIs (alert_id payload) (selectedAlert s)
         then AlertCopy payload else selectedAlert s)
        (loading s) (error s) (filters s)
  | None => s
  end.

(** deleteAlert(state, alertId) *)
Definition deleteAlert (alertId : string) (s : AlertsState) : AlertsState :=
  mkState (filter (λ a, alert_id a ≠ alertId) (alerts s))
    (if selectedIs alertId (selectedAlert s) then NoAlert else selectedAlert s)
    (loading s) (error s) (filters s).

(** The payload of updateAlertFilters, key by key as for the component
    filters: missing, or present with a value that may be [undefined]. *)
Record FilterPatch : Type := mkPatch {
  p_status : option (option AlertStatus);
  p_severity : option (option AlertSeverity);
  p_component : option (option string);
  p_fromDate : option (option string);
  p_toDate : option (option string)
}.

(** updateAlertFilters(state, payload) *)
Definition updateAlertFilters (p : FilterPatch) (s : AlertsState) : AlertsState :=
  mkState (alerts s) (selectedAlert s) (loading s) (error s)
    (mkFilters (Infrastructure.spread (f_status (filters s)) (p_status p))
               (Infrastructure.spread (f_severity (filters s)) (p_severity p))
               (Infrastructure.spread (f_component (filters s)) (p_component p))
               (Infrastructure.spread (f_fromDate (filters s)) (p_fromDate p))
               (Infrastructure.spread (f_toDate (filters s)) (p_toDate p))).

(** clearAlertFilters(state) *)
Definition clearAlertFilters (s : AlertsState) : AlertsState :=
  mkState (alerts s) (selectedAlert s) (loading s) (error s)
    (mkFilters None None None None None).

(** The actions of the slice. *)
Inductive Action : Type :=
| FetchAlertsStart
| FetchAlertsSuccess (payload : list Alert)
| FetchAlertsFailure (msg : string)
| SelectAlert (alertId : string)
| ClearSelectedAlert
| UpdateAlertStatus (now alertId : string) (st : AlertStatus) (notes : option string)
| UpdateAlertFilters (p : FilterPatch)
| ClearAlertFilters
| AddNewAlert (a : Alert)
| UpdateAlert (payload : Alert)
| DeleteAlert (alertId : string).

Definition reducer (s : AlertsState) (a : Action) : AlertsState :=
  match a with
  | FetchAlertsStart => fetchAlertsStart s
  | FetchAlertsSuccess payload => fetchAlertsSuccess payload s
  | FetchAlertsFailure msg => fetchAlertsFailure msg s
  | SelectAlert k => selectAlert k s
  | ClearSelectedAlert => clearSelectedAlert s
  | UpdateAlertStatus now k st notes => updateAlertStatus now k st notes s
  | UpdateAlertFilters p => updateAlertFilters p s
  | ClearAlertFilters => clearAlertFilters s
  | AddNewAlert a => addNewAlert a s
  | UpdateAlert payload => updateAlert payload s
  | DeleteAlert k => deleteAlert k s
  end.

Definition dispatch (acts : list Action) (s : AlertsState) : AlertsState :=
  fold_left reducer acts s.

(** The actions that bring alerts into the list from outside. *)
Definition brings_alerts (a : Action) : bool :=
  match a with
  | FetchAlertsSuccess _ | AddNewAlert _ => true
  | _ => false
  end.

(** The selection shows the alert the list holds: a selected alert is the
    first alert of the list carrying its identifier. *)
Definition selection_current (s : AlertsState) : Prop :=
  match selectedAlert s with
  | AlertCopy sel => ∃ i, findAlert (alert_id sel) (alerts s) = Some (i, sel)
  | NoAlert => True
  | EmptyAlert => False
  end.

End Alerts.

(* ===================================================================== *)
Module Ui.

Inductive NotificationType : Set := info | success | warning | error.

Record Notification : Type := mkNotification {
  id : string;
  message : string;
  type : NotificationType;
  timestamp : string;
  read : bool
}.

(** [Omit<Notification, 'id' | 'timestamp' | 'read'>] *)
Record NotificationPayload : Type := mkPayload {
  p_message : string;
  p_type : NotificationType
}.

Record UiState : Type := mkState {
  darkMode : bool;
  sidebarOpen : bool;
  notifications : list Notification;
  currentView : string;
  refreshInterval : Z
}.

Definition initialState : UiState := mkState true true [] "dashboard" 30000.

(** [`notification-${Date.now()}-${Math.floor(Math.random() * 1000)}`];
    [ms] is the reading of [Date.now()] and [rnd] the value of the floor. *)
Definition notificationId (ms rnd : Z) : string :=
  "notification-" +:+ pretty ms +:+ "-" +:+ pretty rnd.

(** addNotification(state, payload); [iso] is [new Date().toISOString()]. *)
Definition addNotification (ms rnd : Z) (iso : string) (p : NotificationPayload)
    (s : UiState) : UiState :=
  let n := mkNotification (notificationId ms rnd) (p_message p) (p_type p) iso false in
  let unshifted := n :: notifications s in
  mkState (darkMode s) (sidebarOpen s)
    (if bool_decide (50 < length unshifted) then take 50 unshifted else unshifted)
    (currentView s) (refreshInterval s).

(** One dispatch of addNotification with its environment readings. *)
Record AddNotification : Type := mkAdd {
  a_ms : Z;
  a_rnd : Z;
  a_iso : string;
  a_payload : NotificationPayload
}.

Definition notifyReducer (s : UiState) (a : AddNotification) : UiState :=
  addNotification (a_ms a) (a_rnd a) (a_iso a) (a_payload a) s.

Definition dispatchNotifications (acts : list AddNotification) (s : UiState) : UiState :=
  fold_left notifyReducer acts s.


(** ** The remaining reducers of the slice *)

Definition toggleDarkMode (s : UiState) : UiState :=
  mkState (negb (darkMode s)) (sidebarOpen s) (notifications s)
    (currentView s) (refreshInterval s).

Definition toggleSidebar (s : UiState) : UiState :=
  mkState (darkMode s) (negb (sidebarOpen s)) (notifications s)
    (currentView s) (refreshInterval s).

Definition setSidebarOpen (b : bool) (s : UiState) : UiState :=
  mkState (darkMode s) b (notifications s) (currentView s) (refreshInterval s).

Definition setCurrentView (v : string) (s : UiState) : UiState :=
  mkState (darkMode s) (sidebarOpen s) (notifications s) v (refreshInterval s).

Definition setRefreshInterval (n : Z) (s : UiState) : UiState :=
  mkState (darkMode s) (sidebarOpen s) (notifications s) (currentView s) n.

(** [notification.read = true] *)
Definition markRead (n : Notification) : Notification :=
  mkNotification (id n) (message n) (type n) (timestamp n) true.

(** markNotificationAsRead(state, id): the first notification found with
    the identifier is marked. *)
Definition markNotificationAsRead (k : string) (s : UiState) : UiState :=
  match list_find (λ n, id n = k) (notifications s) with
  | Some (i, n) =>
      mkState (darkMode s) (sidebarOpen s) (<[i := markRead n]> (notifications s))
        (currentView s) (refreshInterval s)
  | None => s
  end.

(** markAllNotificationsAsRead(state) *)
Definition markAllNotificationsAsRead (s : UiState) : UiState :=
  mkState (darkMode s) (sidebarOpen s) (markRead <$> notifications s)
    (currentView s) (refreshInterval s).

(** clearNotifications(state) *)
Definition clearNotifications (s : UiState) : UiState :=
  mkState (darkMode s) (sidebarOpen s) [] (currentView s) (refreshInterval s).

(** The notification an addNotification dispatch creates. *)
Definition created (a : AddNotification) : Notification :=
  mkNotification (notificationId (a_ms a) (a_rnd a)) (p_message (a_payload a))
    (p_type (a_payload a)) (a_iso a) false.

End Ui.

(* ===================================================================== *)
Set Warnings "-inexact-float".

Module Calendar.

Inductive RiskLevel : Set := low | medium | high.

Record OptimalWindow : Type := mkWindow {
  time : string;
  risk_level : RiskLevel
}.

(** One cell handed to the heatmap; [value] is a JavaScript number. *)
Record Cell : Type := mkCell {
  c_day : string;
  c_time : string;
  value : float
}.

Definition days : list string :=
  ["Monday"; "Tuesday"; "Wednesday"; "Thursday"; "Friday"; "Saturday"; "Sunday"].

Definition timeSlots : list string := ["10:00-12:00"; "14:00-16:00"].

(** [optimalWindows[day]?.find(s => s.time === time)] *)
Definition findSlot (w : gmap string (list OptimalWindow)) (day t : string)
    : option OptimalWindow :=
  w !! day ≫= λ l, snd <$> list_find (λ s, time s = t) l.

(** The number the source assigns to a risk level. *)
Definition levelValue (r : RiskLevel) : float :=
  match r with
  | low => 0.3
  | medium => 0.6
  | high => 0.9
  end%float.

(** [slot ? ... : 0.5] *)
Definition slotValue (slot : option OptimalWindow) : float :=
  match slot with
  | Some s => levelValue (risk_level s)
  | None => 0.5%float
  end.

(** prepareCalendarData(), over the [optimalWindows] of the store
    ([None] is [null]). *)
Definition prepareCalendarData (optimalWindows : option (gmap string (list OptimalWindow)))
    : list Cell :=
  match optimalWindows with
  | None => []
  | Some w =>
      days ≫= λ day,
        (λ t, mkCell day t (slotValue (findSlot w day t))) <$> timeSlots
  end.

(** The band the heatmap tooltip prints for a cell value:
    [d.value < 0.4 ? 'Low' : d.value < 0.7 ? 'Medium' : 'High']. *)
Definition bandLabel (v : float) : string :=
  if PrimFloat.ltb v 0.4 then "Low"
  else if PrimFloat.ltb v 0.7 then "Medium"
  else "High".

(** A calendar with a single medium slot on Monday morning. *)
Definition mondayMedium : gmap string (list OptimalWindow) :=
  {[ "Monday" := [mkWindow "10:00-12:00" medium] ]}.

(** The word the page uses for a level (its legend reads Low Risk, Medium
    Risk, High Risk). *)
Definition levelName (r : RiskLevel) : string :=
  match r with
  | low => "Low"
  | medium => "Medium"
  | high => "High"
  end.

(** The (day, time) pairs of the grid, day by day. *)
Definition grid : list (string * string) :=
  days ≫= λ day, pair day <$> timeSlots.

End Calendar.

(* ===================================================================== *)
(** * Figures derived from the store: pages/Dashboard and components/Layout *)
Module Dashboard.

#[global] Instance AlertSeverity_eq_dec : EqDecision Alerts.AlertSeverity.
Proof. solve_decision. Defined.

#[global] Instance ComponentStatus_eq_dec : EqDecision Infrastructure.ComponentStatus.
Proof. solve_decision. Defined.

(** [l.filter(p).length] *)
Definition countWhere {A : Type} (P : A → Prop) `{∀ x, Decision (P x)}
    (l : list A) : nat :=
  length (filter P l).

Record AlertStats : Type := mkAlertStats {
  alerts_critical : nat;
  alerts_high : nat;
  alerts_medium : nat;
  alerts_low : nat;
  alerts_new : nat;
  alerts_acknowledged : nat;
  alerts_inProgress : nat;
  alerts_resolved : nat
}.

(** The [alertStats] object of the dashboard. *)
Definition alertStats (alerts : list Alerts.Alert) : AlertStats :=
  mkAlertStats
    (countWhere (λ a, Alerts.severity a = Alerts.CRITICAL) alerts)
    (countWhere (λ a, Alerts.severity a = Alerts.HIGH) alerts)
    (countWhere (λ a, Alerts.severity a = Alerts.MEDIUM) alerts)
    (countWhere (λ a, Alerts.severity a = Alerts.LOW) alerts)
    (countWhere (λ a, Alerts.status a = Alerts.NEW) alerts)
    (countWhere (λ a, Alerts.status a = Alerts.ACKNOWLEDGED) alerts)
    (countWhere (λ a, Alerts.status a = Alerts.IN_PROGRESS) alerts)
    (countWhere (λ a, Alerts.status a = Alerts.RESOLVED) alerts).

(** The badge of the layout:
    [alerts.filter(a => a.status === 'new' || a.status === 'acknowledged').length] *)
Definition unreadAlerts (alerts : list Alerts.Alert) : nat :=
  countWhere (λ a, Alerts.status a = Alerts.NEW ∨ Alerts.status a = Alerts.ACKNOWLEDGED)
    alerts.

Record ComponentStats : Type := mkComponentStats {
  components_total : nat;
  components_healthy : nat;
  components_degraded : nat;
  components_warning : nat;
  components_critical : nat;
  components_maintenance : nat
}.

(** [Object.values(components)]; the figures below are counts, which do
    not depend on the order of the values. *)
Definition values (m : gmap string Infrastructure.InfrastructureComponent)
    : list Infrastructure.InfrastructureComponent :=
  snd <$> map_to_list m.

(** The [componentStats] object of the dashboard; [total] is
    [Object.keys(components).length]. *)
Definition componentStats (m : gmap string Infrastructure.InfrastructureComponent)
    : ComponentStats :=
  mkComponentStats
    (size m)
    (countWhere (λ c, Infrastructure.status c = Infrastructure.HEALTHY) (values m))
    (countWhere (λ c, Infrastructure.status c = Infrastructure.DEGRADED) (values m))
    (countWhere (λ c, Infrastructure.status c = Infrastructure.WARNING) (values m))
    (countWhere (λ c, Infrastructure.status c = Infrastructure.CRITICAL) (values m))
    (countWhere (λ c, Infrastructure.status c = Infrastructure.MAINTENANCE) (values m)).

End Dashboard.

(* ===================================================================== *)
(** * The graph handed to the visualisation: pages/Analysis, first effect

    The effect works on [Object.values(components)]; that array is the
    argument [vals] here. *)
Module Graph.
Import Infrastructure.

Record Node : Type := mkNode {
  id : string;
  n_name : string;
  n_type : ComponentType;
  n_status : ComponentStatus
}.

Record Link : Type := mkLink {
  source : string;
  target : string;
  value : Z
}.

Record GraphData : Type := mkGraph {
  nodes : list Node;
  links : list Link
}.

Record AnalysisResult : Type := mkResult {
  source_component : string;
  affected_components : list string;
  failure_domains : list (list string);
  impact_score : float;
  r_timestamp : string
}.

(** [Object.values(components).map(component => ({ id, name, type, status }))] *)
Definition baseNodes (vals : list InfrastructureComponent) : list Node :=
  (λ c, mkNode (component_id c) (name c) (component_type c) (status c)) <$> vals.

(** The links pushed by the two nested [forEach]. *)
Definition baseLinks (vals : list InfrastructureComponent) : list Link :=
  vals ≫= λ c, (λ depId, mkLink (component_id c) depId 1) <$> dependencies c.

(** [node.status = st] *)
Definition recolour (st : ComponentStatus) (n : Node) : Node :=
  mkNode (id n) (n_name n) (n_type n) st.

(** [nodes.forEach(node => { if (set.has(node.id)) node.status = st })] *)
Definition recolourIn (ids : list string) (st : ComponentStatus) (ns : list Node)
    : list Node :=
  (λ n, if bool_decide (id n ∈ ids) then recolour st n else n) <$> ns.

Definition domainColors : list ComponentStatus :=
  [CRITICAL; WARNING; DEGRADED; MAINTENANCE; UNKNOWN].

(** [domainColors[index % domainColors.length]]; the index is always in
    range, the default is never taken. *)
Definition domainColor (index : nat) : ComponentStatus :=
  default UNKNOWN (domainColors !! (index mod length domainColors)).

(** [failure_domains.forEach((domain, index) => ...)], from index [i]. *)
Fixpoint colourDomainsFrom (i : nat) (domains : list (list string))
    (ns : list Node) : list Node :=
  match domains with
  | [] => ns
  | domain :: rest =>
      colourDomainsFrom (S i) rest (recolourIn domain (domainColor i) ns)
  end.

(** The body of the effect: [None] when there is no component (the graph
    state is not set), otherwise the graph passed to [setGraphData]. *)
Definition prepareGraphData (tabValue : Z)
    (healthStatus impactAnalysis failureDomains : option AnalysisResult)
    (vals : list InfrastructureComponent) : option GraphData :=
  if bool_decide (0 < length vals) then
    let ns := baseNodes vals in
    let ns' :=
      match bool_decide (tabValue = 0%Z), healthStatus with
      | true, Some r => recolourIn (affected_components r) CRITICAL ns
      | _, _ =>
          match bool_decide (tabValue = 1%Z), impactAnalysis with
          | true, Some r => recolourIn (affected_components r) CRITICAL ns
          | _, _ =>
              match bool_decide (tabValue = 2%Z), failureDomains with
              | true, Some r => colourDomainsFrom 0 (failure_domains r) ns
              | _, _ => ns
              end
          end
      end in
    Some (mkGraph ns' (baseLinks vals))
  else None.

End Graph.

(* ===================================================================== *)
(** * The predictions slice: features/predictions/predictionsSlice.ts *)
Module Predictions.

Record DeploymentPrediction : Type := mkPrediction {
  deployment_id : string;
  components : list string;
  risk_score : float;
  risk_factors : list string;
  recommended_actions : list string;
  optimal_window : option string;
  timestamp : string
}.

Record PredictionsState : Type := mkState {
  predictions : list DeploymentPrediction;
  selectedPrediction : option DeploymentPrediction;
  optimalWindows : option (gmap string (list Calendar.OptimalWindow));
  loading : bool;
  error : option string
}.

Definition initialState : PredictionsState := mkState [] None None false None.

(** [state.predictions.find(p => p.deployment_id === id)] with its index. *)
Definition findPrediction (k : string) (l : list DeploymentPrediction)
    : option (nat * DeploymentPrediction) :=
  list_find (λ p, deployment_id p = k) l.

Definition fetchPredictionsSuccess (payload : list DeploymentPrediction)
    (s : PredictionsState) : PredictionsState :=
  mkState payload (selectedPrediction s) (optimalWindows s) false (error s).

(** selectPrediction(state, id): [find(...) || null] *)
Definition selectPrediction (k : string) (s : PredictionsState) : PredictionsState :=
  mkState (predictions s) (snd <$> findPrediction k (predictions s))
    (optimalWindows s) (loading s) (error s).

Definition clearSelectedPrediction (s : PredictionsState) : PredictionsState :=
  mkState (predictions s) None (optimalWindows s) (loading s) (error s).

Definition fetchOptimalWindowsSuccess (w : gmap string (list Calendar.OptimalWindow))
    (s : PredictionsState) : PredictionsState :=
  mkState (predictions s) (selectedPrediction s) (Some w) false (error s).

(** addPrediction(state, prediction) *)
Definition addPrediction (p : DeploymentPrediction) (s : PredictionsState)
    : PredictionsState :=
  mkState (p :: predictions s) (selectedPrediction s) (optimalWindows s)
    (loading s) (error s).

(** updatePrediction(state, payload) *)
Definition updatePrediction (payload : DeploymentPrediction) (s : PredictionsState)
    : PredictionsState :=
  match findPrediction (deployment_id payload) (predictions s) with
  | Some (index, _) =>
      mkState (<[index := payload]> (predictions s))
        (match selectedPrediction s with
         | Some sel =>
             if bool_decide (deployment_id sel = deployment_id payload)
             then Some payload else Some sel
         | None => None
         end)
        (optimalWindows s) (loading s) (error s)
  | None => s
  end.

(** The actions of the slice that are modelled. *)
Inductive Action : Type :=
| FetchPredictionsSuccess (payload : list DeploymentPrediction)
| SelectPrediction (k : string)
| ClearSelectedPrediction
| FetchOptimalWindowsSuccess (w : gmap string (list Calendar.OptimalWindow))
| AddPrediction (p : DeploymentPrediction)
| UpdatePrediction (payload : DeploymentPrediction).

Definition reducer (s : PredictionsState) (a : Action) : PredictionsState :=
  match a with
  | FetchPredictionsSuccess payload => fetchPredictionsSuccess payload s
  | SelectPrediction k => selectPrediction k s
  | ClearSelectedPrediction => clearSelectedPrediction s
  | FetchOptimalWindowsSuccess w => fetchOptimalWindowsSuccess w s
  | AddPrediction p => addPrediction p s
  | UpdatePrediction payload => updatePrediction payload s
  end.

Definition dispatch (acts : list Action) (s : PredictionsState) : PredictionsState :=
  fold_left reducer acts s.

Definition brings_predictions (a : Action) : bool :=
  match a with
  | FetchPredictionsSuccess _ | AddPrediction _ => true
  | _ => false
  end.

(** The selected prediction is the first prediction of the list with its
    identifier. *)
Definition selection_current (s : PredictionsState) : Prop :=
  match selectedPrediction s with
  | Some sel => ∃ i, findPrediction (deployment_id sel) (predictions s) = Some (i, sel)
  | None => True
  end.

(** An example list. *)
Definition rollout : DeploymentPrediction :=
  mkPrediction "deploy-1" ["web"; "db"] 0.75 ["spans multiple failure domains"]
    ["stagger rollout"] (Some "Tuesday 10:00-12:00") "2024-03-01T08:00:00.000Z".

Definition hotfix : DeploymentPrediction :=
  mkPrediction "deploy-2" ["cache"] 0.25 [] [] None "2024-03-01T09:00:00.000Z".

Definition exampleState : PredictionsState :=
  mkState [rollout; hotfix] None None false None.

End Predictions.

(* ===================================================================== *)
(** * Properties of the infrastructure slice *)
Module InfrastructureFacts.
Import Infrastructure.

Lemma includes_true l x : includes l x = true ↔ x ∈ l.
Proof. unfold includes. apply bool_decide_eq_true. Qed.

Lemma includes_false l x : includes l x = false ↔ x ∉ l.
Proof. unfold includes. apply bool_decide_eq_false. Qed.

Lemma elem_of_without x y l : y ∈ without x l ↔ y ∈ l ∧ y ≠ x.
Proof. unfold without. rewrite list_elem_of_filter. tauto. Qed.

Lemma without_absent x l : x ∉ without x l.
Proof. rewrite elem_of_without. tauto. Qed.

(** C8. updateComponentStatus changes at most the status and updated_at of
    the named component: its other fields, every other component and the
    rest of the state are as before, and on an absent identifier the state
    is returned unchanged. *)
Theorem updateComponentStatus_frame (now k : string) (st : ComponentStatus)
    (s : InfrastructureState) :
  let s' := updateComponentStatus now k st s in
  (∀ c, components s !! k = Some c →
     ∃ c', components s' !! k = Some c' ∧
       status c' = st ∧ updated_at c' = now ∧
       component_id c' = component_id c ∧ name c' = name c ∧
       component_type c' = component_type c ∧ metadata c' = metadata c ∧
       dependencies c' = dependencies c ∧ dependents c' = dependents c ∧
       location c' = location c ∧ owner c' = owner c ∧
       created_at c' = created_at c ∧ active_alerts c' = active_alerts c) ∧
  (∀ k', k' ≠ k → components s' !! k' = components s !! k') ∧
  (components s !! k = None → s' = s) ∧
  selectedComponent s' = selectedComponent s ∧ loading s' = loading s ∧
  error s' = error s ∧ filters s' = filters s.
Proof.
  intros s'. subst s'. unfold updateComponentStatus.
  destruct (components s !! k) as [c|] eqn:Hk; simpl.
  - split_and!; try done.
    + intros c0 [= <-]. eexists. rewrite lookup_insert_eq.
      split; [reflexivity|]. by destruct c.
    + intros k' Hne. by rewrite lookup_insert_ne.
  - split_and!; done.
Qed.

Lemma updateComponentStatus_frame_witness :
  components (updateComponentStatus "2024-02-02T10:00:00.000Z" "db" CRITICAL exampleState) !! "web"
    = components exampleState !! "web"
  ∧ updateComponentStatus "2024-02-02T10:00:00.000Z" "cache" CRITICAL exampleState
    = exampleState.
Proof.
  pose proof (updateComponentStatus_frame "2024-02-02T10:00:00.000Z" "db" CRITICAL exampleState)
    as (_ & Hother & _).
  pose proof (updateComponentStatus_frame "2024-02-02T10:00:00.000Z" "cache" CRITICAL exampleState)
    as (_ & _ & Habsent & _).
  split.
  - apply Hother. discriminate.
  - apply Habsent. reflexivity.
Defined.

(** ** How each statement of the edge reducers changes a lookup, on the
       keys of the store *)

Lemma lookup_record_dependency now d y s k :
  components (record_dependency now d y s) !! k
  = (if decide (k = d) then push_dependency now y else id) <$> components s !! k.
Proof.
  unfold record_dependency, push_dependency.
  destruct (decide (k = d)) as [->|Hne].
  - destruct (components s !! d) as [c|] eqn:Hd; [|by rewrite Hd].
    destruct (includes (dependencies c) y) eqn:Hi; simpl.
    + rewrite Hd; simpl; by rewrite Hi.
    + rewrite lookup_insert_eq; simpl; by rewrite Hi.
  - destruct (components s !! d) as [c|] eqn:Hd; [|by rewrite option_fmap_id].
    destruct (includes (dependencies c) y); simpl;
      rewrite ?lookup_insert_ne by done; by rewrite option_fmap_id.
Qed.

Lemma lookup_record_dependent now d y s k :
  components (record_dependent now d y s) !! k
  = (if decide (k = y) then push_dependent now d else id) <$> components s !! k.
Proof.
  unfold record_dependent, push_dependent.
  destruct (decide (k = y)) as [->|Hne].
  - destruct (components s !! y) as [c|] eqn:Hy; [|by rewrite Hy].
    destruct (includes (dependents c) d) eqn:Hi; simpl.
    + rewrite Hy; simpl; by rewrite Hi.
    + rewrite lookup_insert_eq; simpl; by rewrite Hi.
  - destruct (components s !! y) as [c|] eqn:Hy; [|by rewrite option_fmap_id].
    destruct (includes (dependents c) d); simpl;
      rewrite ?lookup_insert_ne by done; by rewrite option_fmap_id.
Qed.

Lemma lookup_erase_dependency now d y s k :
  components (erase_dependency now d y s) !! k
  = (if decide (k = d) then drop_dependency now y else id) <$> components s !! k.
Proof.
  unfold erase_dependency, drop_dependency.
  destruct (decide (k = d)) as [->|Hne].
  - destruct (components s !! d) as [c|] eqn:Hd; [|by rewrite Hd].
    simpl. by rewrite lookup_insert_eq.
  - destruct (components s !! d) as [c|] eqn:Hd; simpl;
      rewrite ?lookup_insert_ne by done; by rewrite option_fmap_id.
Qed.

Lemma lookup_erase_dependent now d y s k :
  components (erase_dependent now d y s) !! k
  = (if decide (k = y) then drop_dependent now d else id) <$> components s !! k.
Proof.
  unfold erase_dependent, drop_dependent.
  destruct (decide (k = y)) as [->|Hne].
  - destruct (components s !! y) as [c|] eqn:Hy; [|by rewrite Hy].
    simpl. by rewrite lookup_insert_eq.
  - destruct (components s !! y) as [c|] eqn:Hy; simpl;
      rewrite ?lookup_insert_ne by done; by rewrite option_fmap_id.
Qed.

Lemma lookup_record_edge t1 t2 d y s k :
  components (record_edge t1 t2 d y s) !! k
  = (λ c, (if decide (k = y) then push_dependent t2 d else id)
            ((if decide (k = d) then push_dependency t1 y else id) c))
      <$> components s !! k.
Proof.
  unfold record_edge.
  rewrite lookup_record_dependent, lookup_record_dependency.
  by rewrite <- option_fmap_compose.
Qed.

Lemma lookup_erase_edge t1 t2 d y s k :
  components (erase_edge t1 t2 d y s) !! k
  = (λ c, (if decide (k = y) then drop_dependent t2 d else id)
            ((if decide (k = d) then drop_dependency t1 y else id) c))
      <$> components s !! k.
Proof.
  unfold erase_edge.
  rewrite lookup_erase_dependent, lookup_erase_dependency.
  by rewrite <- option_fmap_compose.
Qed.

(** The two lists of a component after each per-component step. *)
Lemma push_dependency_lists now y c x :
  (x ∈ dependencies (push_dependency now y c) ↔ x ∈ dependencies c ∨ x = y)
  ∧ dependents (push_dependency now y c) = dependents c.
Proof.
  unfold push_dependency.
  destruct (includes (dependencies c) y) eqn:Hi; simpl.
  - apply includes_true in Hi. split; [|done].
    split; [tauto | by intros [?| ->]].
  - split; [|done]. rewrite elem_of_app, list_elem_of_singleton. tauto.
Qed.

Lemma push_dependent_lists now d c x :
  (x ∈ dependents (push_dependent now d c) ↔ x ∈ dependents c ∨ x = d)
  ∧ dependencies (push_dependent now d c) = dependencies c.
Proof.
  unfold push_dependent.
  destruct (includes (dependents c) d) eqn:Hi; simpl.
  - apply includes_true in Hi. split; [|done].
    split; [tauto | by intros [?| ->]].
  - split; [|done]. rewrite elem_of_app, list_elem_of_singleton. tauto.
Qed.

Lemma drop_dependency_lists now y c x :
  (x ∈ dependencies (drop_dependency now y c) ↔ x ∈ dependencies c ∧ x ≠ y)
  ∧ dependents (drop_dependency now y c) = dependents c.
Proof. unfold drop_dependency; simpl. by rewrite elem_of_without. Qed.

Lemma drop_dependent_lists now d c x :
  (x ∈ dependents (drop_dependent now d c) ↔ x ∈ dependents c ∧ x ≠ d)
  ∧ dependencies (drop_dependent now d c) = dependencies c.
Proof. unfold drop_dependent; simpl. by rewrite elem_of_without. Qed.

(** ** Edges of the store after both statements *)

Lemma add_present t1 t2 d y s k :
  is_Some (components (record_edge t1 t2 d y s) !! k)
  ↔ is_Some (components s !! k).
Proof. rewrite lookup_record_edge. apply fmap_is_Some. Qed.

Lemma remove_present t1 t2 d y s k :
  is_Some (components (erase_edge t1 t2 d y s) !! k)
  ↔ is_Some (components s !! k).
Proof. rewrite lookup_erase_edge. apply fmap_is_Some. Qed.

Lemma add_deps t1 t2 d y s k x :
  x ∈ deps_of (components (record_edge t1 t2 d y s)) k
  ↔ x ∈ deps_of (components s) k
    ∨ (k = d ∧ x = y ∧ is_Some (components s !! d)).
Proof.
  unfold deps_of. rewrite lookup_record_edge.
  destruct (components s !! k) as [c|] eqn:Hk; simpl.
  - assert (dependencies
              ((if decide (k = y) then push_dependent t2 d else id)
                 ((if decide (k = d) then push_dependency t1 y else id) c))
            = dependencies ((if decide (k = d) then push_dependency t1 y else id) c))
      as -> by (destruct (decide (k = y)); [apply push_dependent_lists; exact x | done]).
    destruct (decide (k = d)) as [->|Hne]; simpl.
    + rewrite (proj1 (push_dependency_lists t1 y c x)).
      rewrite Hk. split; [intros [?| ->]; eauto|]. intros [?|(_ & -> & _)]; auto.
    + split; [auto|]. by intros [?|(? & _)].
  - split; [by intros ?%elem_of_nil|].
    intros [?%elem_of_nil|(-> & _ & [? Hd])]; [done|congruence].
Qed.

Lemma add_dependents t1 t2 d y s k x :
  x ∈ dependents_of (components (record_edge t1 t2 d y s)) k
  ↔ x ∈ dependents_of (components s) k
    ∨ (k = y ∧ x = d ∧ is_Some (components s !! y)).
Proof.
  unfold dependents_of. rewrite lookup_record_edge.
  destruct (components s !! k) as [c|] eqn:Hk; simpl.
  - assert (dependents ((if decide (k = d) then push_dependency t1 y else id) c)
            = dependents c) as Hfirst
      by (destruct (decide (k = d)); [apply push_dependency_lists; exact x | done]).
    destruct (decide (k = y)) as [->|Hne]; simpl.
    + rewrite (proj1 (push_dependent_lists t2 d _ x)), Hfirst.
      rewrite Hk. split; [intros [?| ->]; eauto|]. intros [?|(_ & -> & _)]; auto.
    + rewrite Hfirst. split; [auto|]. by intros [?|(? & _)].
  - split; [by intros ?%elem_of_nil|].
    intros [?%elem_of_nil|(-> & _ & [? Hd])]; [done|congruence].
Qed.

Lemma remove_deps t1 t2 d y s k x :
  x ∈ deps_of (components (erase_edge t1 t2 d y s)) k
  ↔ x ∈ deps_of (components s) k ∧ ¬ (k = d ∧ x = y).
Proof.
  unfold deps_of. rewrite lookup_erase_edge.
  destruct (components s !! k) as [c|] eqn:Hk; simpl.
  - assert (dependencies
              ((if decide (k = y) then drop_dependent t2 d else id)
                 ((if decide (k = d) then drop_dependency t1 y else id) c))
            = dependencies ((if decide (k = d) then drop_dependency t1 y else id) c))
      as -> by (destruct (decide (k = y)); [apply drop_dependent_lists; exact x | done]).
    destruct (decide (k = d)) as [->|Hne]; simpl.
    + rewrite (proj1 (drop_dependency_lists t1 y c x)). tauto.
    + tauto.
  - split; [by intros ?%elem_of_nil | by intros [?%elem_of_nil _]].
Qed.

Lemma remove_dependents t1 t2 d y s k x :
  x ∈ dependents_of (components (erase_edge t1 t2 d y s)) k
  ↔ x ∈ dependents_of (components s) k ∧ ¬ (k = y ∧ x = d).
Proof.
  unfold dependents_of. rewrite lookup_erase_edge.
  destruct (components s !! k) as [c|] eqn:Hk; simpl.
  - assert (dependents ((if decide (k = d) then drop_dependency t1 y else id) c)
            = dependents c) as Hfirst
      by (destruct (decide (k = d)); [apply drop_dependency_lists; exact x | done]).
    destruct (decide (k = y)) as [->|Hne]; cbv beta iota.
    + rewrite (proj1 (drop_dependent_lists t2 d _ x)), Hfirst. tauto.
    + unfold id at 1. rewrite Hfirst. tauto.
  - split; [by intros ?%elem_of_nil | by intros [?%elem_of_nil _]].
Qed.

(** [edge_symmetric] through the per-key lists. *)
Lemma edge_symmetric_lists m :
  edge_symmetric m ↔
  ∀ a b, is_Some (m !! a) → is_Some (m !! b) →
    (b ∈ deps_of m a ↔ a ∈ dependents_of m b).
Proof.
  unfold edge_symmetric, deps_of, dependents_of. split.
  - intros H a b [ca Ha] [cb Hb]. rewrite Ha, Hb. simpl. eauto.
  - intros H a b ca cb Ha Hb.
    specialize (H a b (ex_intro _ ca Ha) (ex_intro _ cb Hb)).
    by rewrite Ha, Hb in H.
Qed.

Lemma add_preserves_symmetry t1 t2 d y s :
  edge_symmetric (components s) →
  edge_symmetric (components (record_edge t1 t2 d y s)).
Proof.
  rewrite !edge_symmetric_lists. intros H a b Ha Hb.
  apply add_present in Ha, Hb. specialize (H a b Ha Hb).
  rewrite add_deps, add_dependents. split.
  - intros [?|(-> & -> & _)]; [left; tauto | right; auto].
  - intros [?|(-> & -> & _)]; [left; tauto | right; auto].
Qed.

Lemma remove_preserves_symmetry t1 t2 d y s :
  edge_symmetric (components s) →
  edge_symmetric (components (erase_edge t1 t2 d y s)).
Proof.
  rewrite !edge_symmetric_lists. intros H a b Ha Hb.
  apply remove_present in Ha, Hb. specialize (H a b Ha Hb).
  rewrite remove_deps, remove_dependents. tauto.
Qed.

(** ** deleteComponent *)

(** C3, counterexample. Deleting the database from the example store leaves
    the web tier holding "db" among its dependencies. *)
Lemma deleteComponent_keeps_dangling_edge :
  is_Some (components exampleState !! "db")
  ∧ components (deleteComponent "db" exampleState) !! "db" = None
  ∧ ∃ D, components (deleteComponent "db" exampleState) !! "web" = Some D
         ∧ "db" ∈ dependencies D.
Proof.
  split_and!; [by eexists | reflexivity |].
  exists web. split; [reflexivity|]. simpl. apply list_elem_of_singleton. reflexivity.
Qed.

(** C3, amended. After deleteComponent the component is absent from the
    store and every other entry of the store is exactly the component it
    was: the deleted identifier stays in the dependencies and dependents of
    the remaining components wherever it was before. The selection is
    cleared when it named the deleted component. *)
Theorem deleteComponent_removes_entry_only (componentId : string)
    (s : InfrastructureState) :
  let s' := deleteComponent componentId s in
  components s' !! componentId = None ∧
  (∀ k, k ≠ componentId → components s' !! k = components s !! k) ∧
  (selectedComponent s = Some componentId → selectedComponent s' = None) ∧
  (selectedComponent s ≠ Some componentId → selectedComponent s' = selectedComponent s).
Proof.
  intros s'. subst s'. unfold deleteComponent. simpl. split_and!.
  - apply lookup_delete_eq.
  - intros k Hne. by apply lookup_delete_ne.
  - intros Hsel. by rewrite bool_decide_eq_true_2.
  - intros Hsel. by rewrite bool_decide_eq_false_2.
Qed.

Lemma deleteComponent_removes_entry_only_witness :
  components (deleteComponent "db" exampleState) !! "web" = components exampleState !! "web".
Proof.
  apply (deleteComponent_removes_entry_only "db" exampleState). discriminate.
Defined.

(** ** Active alerts of a component *)

Lemma register_alert_present now k a s c :
  components s !! k = Some c → a ∈ active_alerts c →
  register_alert now k a s = s.
Proof.
  intros Hk Hin. unfold register_alert. rewrite Hk.
  by rewrite (proj2 (includes_true _ _) Hin).
Qed.

Lemma lookup_register_alert now k a s :
  components (register_alert now k a s) !! k
  = (λ c, if includes (active_alerts c) a then c
          else set_updated_at now (set_active_alerts (active_alerts c ++ [a]) c))
      <$> components s !! k.
Proof.
  unfold register_alert.
  destruct (components s !! k) as [c|] eqn:Hk; [|by rewrite Hk].
  destruct (includes (active_alerts c) a) eqn:Hi; simpl.
  - rewrite Hk; simpl; by rewrite Hi.
  - by rewrite lookup_insert_eq, Hi.
Qed.

(** ** Indexing a payload, rewriting components in place *)

Lemma last_with_cons {A : Type} (P : A → Prop) `{∀ x, Decision (P x)} x l :
  last_with P (x :: l)
  = match last_with P l with
    | Some y => Some y
    | None => if decide (P x) then Some x else None
    end.
Proof.
  unfold last_with. rewrite reverse_cons.
  destruct (list_find P (reverse l)) as [[i y]|] eqn:Hf; simpl.
  - by rewrite (list_find_app_l _ _ _ _ _ Hf).
  - rewrite (list_find_app_r _ _ _ Hf). simpl.
    by destruct (decide (P x)).
Qed.

Lemma last_with_Some {A : Type} (P : A → Prop) `{∀ x, Decision (P x)} l y :
  last_with P l = Some y → P y ∧ y ∈ l.
Proof.
  unfold last_with. destruct (list_find P (reverse l)) as [[i z]|] eqn:Hf; [|done].
  intros [= <-]. apply list_find_Some in Hf as (Hi & HP & _). split; [done|].
  apply elem_of_reverse. by eapply list_elem_of_lookup_2.
Qed.

Lemma lookup_fold_insert payload (m : gmap string InfrastructureComponent) k :
  fold_left (λ acc c, <[component_id c := c]> acc) payload m !! k
  = match last_with (λ c, component_id c = k) payload with
    | Some c => Some c
    | None => m !! k
    end.
Proof.
  revert m. induction payload as [|c payload IH]; intros m; [done|].
  simpl. rewrite IH, last_with_cons.
  destruct (last_with (λ c0, component_id c0 = k) payload); [done|].
  destruct (decide (component_id c = k)) as [<-|Hne].
  - by rewrite lookup_insert_eq.
  - by rewrite lookup_insert_ne.
Qed.

Lemma lookup_modify (m : gmap string InfrastructureComponent) k f k' :
  from_option (λ c, <[k := f c]> m) m (m !! k) !! k'
  = (if decide (k' = k) then f else id) <$> m !! k'.
Proof.
  destruct (decide (k' = k)) as [->|Hne]; destruct (m !! k) as [c|] eqn:E; simpl.
  - by rewrite lookup_insert_eq.
  - by rewrite E.
  - by rewrite lookup_insert_ne, option_fmap_id.
  - by rewrite option_fmap_id.
Qed.

Lemma lookup_updateComponentStatus now k st s k' :
  components (updateComponentStatus now k st s) !! k'
  = (if decide (k' = k) then stamp_status now st else id) <$> components s !! k'.
Proof.
  rewrite <- lookup_modify. unfold updateComponentStatus.
  by destruct (components s !! k).
Qed.

Lemma lookup_register_alert_any now k a s k' :
  components (register_alert now k a s) !! k'
  = (if decide (k' = k) then push_alert now a else id) <$> components s !! k'.
Proof.
  rewrite <- lookup_modify. unfold register_alert, push_alert.
  destruct (components s !! k) as [c|] eqn:Hk; [|done]. simpl.
  destruct (includes (active_alerts c) a); [|done].
  by rewrite insert_id.
Qed.

Lemma lookup_unregister_alert now k a s k' :
  components (unregister_alert now k a s) !! k'
  = (if decide (k' = k) then drop_alert now a else id) <$> components s !! k'.
Proof.
  rewrite <- lookup_modify. unfold unregister_alert.
  by destruct (components s !! k).
Qed.

Lemma key_consistent_rewritten (m m' : gmap string InfrastructureComponent) :
  (∀ k, ∃ f, keeps_identity f ∧ m' !! k = f <$> m !! k) →
  key_consistent m → key_consistent m'.
Proof.
  intros Hrw Hm k c' Hk. destruct (Hrw k) as (f & Hf & Heq).
  rewrite Heq in Hk. apply fmap_Some in Hk as (c & Hc & ->).
  rewrite Hf. by apply Hm.
Qed.

Lemma edge_symmetric_rewritten (m m' : gmap string InfrastructureComponent) :
  (∀ k, ∃ f, keeps_edges f ∧ m' !! k = f <$> m !! k) →
  edge_symmetric m → edge_symmetric m'.
Proof.
  intros Hrw Hm a b ca' cb' Ha Hb.
  destruct (Hrw a) as (fa & Hfa & Heqa). destruct (Hrw b) as (fb & Hfb & Heqb).
  rewrite Heqa in Ha. rewrite Heqb in Hb.
  apply fmap_Some in Ha as (ca & Ha & ->). apply fmap_Some in Hb as (cb & Hb & ->).
  rewrite (proj1 (Hfa ca)), (proj2 (Hfb cb)). by apply Hm.
Qed.

Lemma keeps_identity_if (P : Prop) `{Decision P} f :
  keeps_identity f → keeps_identity (if decide P then f else id).
Proof. intros Hf. by destruct (decide P). Qed.

Lemma keeps_edges_if (P : Prop) `{Decision P} f :
  keeps_edges f → keeps_edges (if decide P then f else id).
Proof. intros Hf. by destruct (decide P). Qed.

Lemma keeps_identity_compose f g :
  keeps_identity f → keeps_identity g → keeps_identity (λ c, g (f c)).
Proof. intros Hf Hg c. by rewrite Hg, Hf. Qed.

Lemma keeps_identity_push_dependency now y : keeps_identity (push_dependency now y).
Proof. intros c. unfold push_dependency. by destruct (includes _ _). Qed.

Lemma keeps_identity_push_dependent now d : keeps_identity (push_dependent now d).
Proof. intros c. unfold push_dependent. by destruct (includes _ _). Qed.

Lemma keeps_identity_push_alert now a : keeps_identity (push_alert now a).
Proof. intros c. unfold push_alert. by destruct (includes _ _). Qed.

Lemma keeps_edges_push_alert now a : keeps_edges (push_alert now a).
Proof. intros c. unfold push_alert. by destruct (includes _ _). Qed.

(** ** Recording and erasing an edge, on the keys of the store *)

Lemma without_fresh x l : x ∉ l → without x l = l.
Proof.
  intros Hx. unfold without. induction l as [|z l IH]; [done|].
  apply not_elem_of_cons in Hx as [Hne Hx].
  rewrite filter_cons_True by done. by rewrite IH.
Qed.

Lemma without_snoc x l : without x (l ++ [x]) = without x l.
Proof.
  unfold without. rewrite filter_app, filter_cons_False by (intros H; by apply H).
  by rewrite filter_nil, app_nil_r.
Qed.

Lemma add_noop t1 t2 d y s :
  (components s !! d = None ∨ y ∈ deps_of (components s) d) →
  (components s !! y = None ∨ d ∈ dependents_of (components s) y) →
  record_edge t1 t2 d y s = s.
Proof.
  unfold deps_of, dependents_of. intros Hd Hy.
  assert (record_dependency t1 d y s = s) as Hfirst.
  { unfold record_dependency.
    destruct (components s !! d) as [c|] eqn:Hc; [|done].
    destruct Hd as [?|Hd]; [done|]. simpl in Hd.
    by rewrite (proj2 (includes_true _ _) Hd). }
  unfold record_edge. rewrite Hfirst. unfold record_dependent.
  destruct (components s !! y) as [c|] eqn:Hc; [|done].
  destruct Hy as [?|Hy]; [done|]. simpl in Hy.
  by rewrite (proj2 (includes_true _ _) Hy).
Qed.

Lemma deps_of_remove t1 t2 d y s k :
  deps_of (components (erase_edge t1 t2 d y s)) k
  = if decide (k = d) then without y (deps_of (components s) k)
    else deps_of (components s) k.
Proof.
  unfold deps_of. rewrite lookup_erase_edge.
  destruct (components s !! k) as [c|]; simpl; [|by case_decide].
  destruct (decide (k = y)), (decide (k = d)); done.
Qed.

Lemma dependents_of_remove t1 t2 d y s k :
  dependents_of (components (erase_edge t1 t2 d y s)) k
  = if decide (k = y) then without d (dependents_of (components s) k)
    else dependents_of (components s) k.
Proof.
  unfold dependents_of. rewrite lookup_erase_edge.
  destruct (components s !! k) as [c|]; simpl; [|by case_decide].
  destruct (decide (k = y)), (decide (k = d)); done.
Qed.

Lemma deps_of_add t1 t2 d y s k :
  deps_of (components (record_edge t1 t2 d y s)) k
  = if decide (k = d ∧ is_Some (components s !! d) ∧ y ∉ deps_of (components s) d)
    then (deps_of (components s) k ++ [y])%list
    else deps_of (components s) k.
Proof.
  unfold deps_of. rewrite lookup_record_edge.
  destruct (components s !! k) as [c|] eqn:Hk; simpl.
  - assert (dependencies
              ((if decide (k = y) then push_dependent t2 d else id)
                 ((if decide (k = d) then push_dependency t1 y else id) c))
            = dependencies ((if decide (k = d) then push_dependency t1 y else id) c))
      as -> by (destruct (decide (k = y)); [apply push_dependent_lists; exact y | done]).
    destruct (decide (k = d)) as [->|Hne].
    + rewrite Hk. simpl. unfold push_dependency.
      destruct (includes (dependencies c) y) eqn:Hi.
      * apply includes_true in Hi. rewrite decide_False; [done|tauto].
      * apply includes_false in Hi. rewrite decide_True; [done|]. by eauto.
    + rewrite decide_False; [done|tauto].
  - rewrite decide_False; [done|]. intros (-> & [? Hs] & _). congruence.
Qed.

Lemma dependents_of_add t1 t2 d y s k :
  dependents_of (components (record_edge t1 t2 d y s)) k
  = if decide (k = y ∧ is_Some (components s !! y) ∧ d ∉ dependents_of (components s) y)
    then (dependents_of (components s) k ++ [d])%list
    else dependents_of (components s) k.
Proof.
  unfold dependents_of. rewrite lookup_record_edge.
  destruct (components s !! k) as [c|] eqn:Hk; simpl.
  - assert (dependents ((if decide (k = d) then push_dependency t1 y else id) c)
            = dependents c) as Hfirst
      by (destruct (decide (k = d)); [apply push_dependency_lists; exact y | done]).
    destruct (decide (k = y)) as [->|Hne].
    + rewrite Hk. simpl. unfold push_dependent. rewrite Hfirst.
      destruct (includes (dependents c) d) eqn:Hi; simpl; rewrite ?Hfirst.
      * apply includes_true in Hi. rewrite decide_False; [done|tauto].
      * apply includes_false in Hi. rewrite decide_True; [done|by eauto].
    + simpl. rewrite Hfirst, decide_False; [done|tauto].
  - rewrite decide_False; [done|]. intros (-> & [? Hs] & _). congruence.
Qed.

(** ** The reducers, through their effect on the keys of the store *)

Lemma reads_inherited_rewritten (m m' : gmap string InfrastructureComponent) k f :
  m' !! k = f <$> m !! k → reads_inherited m' k = reads_inherited m k.
Proof. unfold reads_inherited. intros ->. by destruct (m !! k). Qed.

Lemma reads_inherited_own (m : gmap string InfrastructureComponent) k :
  is_Some (m !! k) → reads_inherited m k = false.
Proof. intros [c Hc]. unfold reads_inherited. by rewrite Hc. Qed.

Lemma reads_inherited_property (m : gmap string InfrastructureComponent) k :
  reads_inherited m k = true ↔ property m k = InheritedValue.
Proof.
  unfold reads_inherited, property. destruct (m !! k); [done|].
  by case_bool_decide.
Qed.

Lemma add_dependency_side_effect now d y s :
  add_dependency_side now d y s
  = if reads_inherited (components s) d then TypeError
    else Done (record_dependency now d y s).
Proof.
  unfold add_dependency_side, record_dependency, property, reads_inherited.
  destruct (components s !! d) as [c|]; [by destruct (includes _ _)|].
  by case_bool_decide.
Qed.

Lemma add_dependent_side_effect now d y s :
  add_dependent_side now d y s
  = if reads_inherited (components s) y then TypeError
    else Done (record_dependent now d y s).
Proof.
  unfold add_dependent_side, record_dependent, property, reads_inherited.
  destruct (components s !! y) as [c|]; [by destruct (includes _ _)|].
  by case_bool_decide.
Qed.

Lemma remove_dependency_side_effect now d y s :
  remove_dependency_side now d y s
  = if reads_inherited (components s) d then TypeError
    else Done (erase_dependency now d y s).
Proof.
  unfold remove_dependency_side, erase_dependency, property, reads_inherited.
  destruct (components s !! d) as [c|]; [done|]. by case_bool_decide.
Qed.

Lemma remove_dependent_side_effect now d y s :
  remove_dependent_side now d y s
  = if reads_inherited (components s) y then TypeError
    else Done (erase_dependent now d y s).
Proof.
  unfold remove_dependent_side, erase_dependent, property, reads_inherited.
  destruct (components s !! y) as [c|]; [done|]. by case_bool_decide.
Qed.

Lemma addComponentRelationship_effect t1 t2 d y s :
  addComponentRelationship t1 t2 d y s
  = if reads_inherited (components s) d || reads_inherited (components s) y
    then TypeError else Done (record_edge t1 t2 d y s).
Proof.
  unfold addComponentRelationship. rewrite add_dependency_side_effect.
  destruct (reads_inherited (components s) d); [done|]. simpl.
  rewrite add_dependent_side_effect.
  by rewrite (reads_inherited_rewritten _ _ _ _ (lookup_record_dependency t1 d y s y)).
Qed.

Lemma removeComponentRelationship_effect t1 t2 d y s :
  removeComponentRelationship t1 t2 d y s
  = if reads_inherited (components s) d || reads_inherited (components s) y
    then TypeError else Done (erase_edge t1 t2 d y s).
Proof.
  unfold removeComponentRelationship. rewrite remove_dependency_side_effect.
  destruct (reads_inherited (components s) d); [done|]. simpl.
  rewrite remove_dependent_side_effect.
  by rewrite (reads_inherited_rewritten _ _ _ _ (lookup_erase_dependency t1 d y s y)).
Qed.

Lemma addAlertToComponent_effect now k a s :
  addAlertToComponent now k a s
  = if reads_inherited (components s) k then TypeError
    else Done (register_alert now k a s).
Proof.
  unfold addAlertToComponent, register_alert, property, reads_inherited.
  destruct (components s !! k) as [c|]; [by destruct (includes _ _)|].
  by case_bool_decide.
Qed.

Lemma removeAlertFromComponent_effect now k a s :
  removeAlertFromComponent now k a s
  = if reads_inherited (components s) k then TypeError
    else Done (unregister_alert now k a s).
Proof.
  unfold removeAlertFromComponent, unregister_alert, property, reads_inherited.
  destruct (components s !! k) as [c|]; [done|]. by case_bool_decide.
Qed.

(** ** Edge symmetry under the edge reducers *)

Lemma edge_symmetric_edge_step s a :
  edge_symmetric (components s) →
  ∃ s', storeAfter s (edgeReducer s a) = Some s' ∧ edge_symmetric (components s').
Proof.
  intros Hs. destruct a as [t1 t2 d y|t1 t2 d y]; simpl.
  - rewrite addComponentRelationship_effect.
    destruct (_ || _); simpl; eauto using add_preserves_symmetry.
  - rewrite removeComponentRelationship_effect.
    destruct (_ || _); simpl; eauto using remove_preserves_symmetry.
Qed.

(** C1. Edge symmetry is an invariant of the edge reducers: from a store in
    which B ∈ A.dependencies ⇔ A ∈ B.dependents for all its components, any
    sequence of addComponentRelationship and removeComponentRelationship
    dispatches, whatever identifiers they name (absent ones and names
    inherited from Object.prototype, on which the reducer throws,
    included), leaves such a store. *)
Theorem edge_symmetry_invariant (acts : list EdgeAction) (s : InfrastructureState) :
  edge_symmetric (components s) →
  ∃ s', dispatchEdges acts s = Some s' ∧ edge_symmetric (components s').
Proof.
  revert s. induction acts as [|a acts IH]; intros s Hs; [by exists s|].
  destruct (edge_symmetric_edge_step s a Hs) as (s1 & Hstep & Hs1).
  simpl. rewrite Hstep. simpl. by apply IH.
Qed.

Lemma edge_symmetry_invariant_witness :
  ∃ s', dispatchEdges
          [AddEdge "t1" "t2" "db" "cache";
           AddEdge "t3" "t4" "db" "constructor";
           RemoveEdge "t5" "t6" "web" "db";
           AddEdge "t7" "t8" "web" "web";
           RemoveEdge "t9" "t10" "toString" "web";
           AddEdge "t11" "t12" "db" "web"] exampleState = Some s'
        ∧ edge_symmetric (components s').
Proof.
  apply edge_symmetry_invariant.
  apply (bool_decide_unpack _). vm_compute. exact I.
Defined.

(** ** addComponentRelationship on absent endpoints and on a self-reference *)

(** C2, counterexample. With the dependency absent from the store the
    reducer returns normally and has rewritten the dependent; a
    self-reference is accepted and recorded on both lists of the component.
    Neither case fails, neither leaves the store as it was. *)
Lemma addEdge_failure_cases_mutate :
  components lonelyState !! "db" = None
  ∧ (∃ s', addComponentRelationship "t1" "t2" "web" "db" lonelyState = Done s'
           ∧ s' ≠ lonelyState
           ∧ deps_of (components s') "web" = ["db"])
  ∧ (∃ s', addComponentRelationship "t1" "t2" "web" "web" lonelyState = Done s'
           ∧ s' ≠ lonelyState
           ∧ deps_of (components s') "web" = ["web"]
           ∧ dependents_of (components s') "web" = ["web"]).
Proof.
  split_and!; [reflexivity| |].
  - eexists. split; [reflexivity|]. split; [|reflexivity].
    intros H. apply (f_equal (λ s, deps_of (components s) "web")) in H.
    vm_compute in H. discriminate.
  - eexists. split; [reflexivity|]. split; [|split; reflexivity].
    intros H. apply (f_equal (λ s, deps_of (components s) "web")) in H.
    vm_compute in H. discriminate.
Qed.

(** C2, amended. addComponentRelationship has no NotFound and no
    SelfReference outcome. It throws a TypeError, leaving the store as it
    was, exactly when one of the two identifiers is not a key of the store
    but names a property inherited from Object.prototype. In every other
    case it returns normally, and then: dependencyId is appended to the
    dependencies of dependentId exactly when dependentId is in the store and
    does not list it yet; dependentId is appended to the dependents of
    dependencyId exactly when dependencyId is in the store and does not
    list it yet; every other dependencies and dependents list is what it
    was; no component is added or removed; and with both identifiers absent
    the state is returned unchanged. Equal identifiers are treated like any
    other pair. *)
Theorem addComponentRelationship_independent_sides (t1 t2 d y : string)
    (s : InfrastructureState) :
  (reads_inherited (components s) d || reads_inherited (components s) y = true →
   addComponentRelationship t1 t2 d y s = TypeError)
  ∧ (reads_inherited (components s) d || reads_inherited (components s) y = false →
     ∃ s', addComponentRelationship t1 t2 d y s = Done s'
       ∧ (∀ k, deps_of (components s') k
               = if decide (k = d ∧ is_Some (components s !! d)
                            ∧ y ∉ deps_of (components s) d)
                 then (deps_of (components s) k ++ [y])%list
                 else deps_of (components s) k)
       ∧ (∀ k, dependents_of (components s') k
               = if decide (k = y ∧ is_Some (components s !! y)
                            ∧ d ∉ dependents_of (components s) y)
                 then (dependents_of (components s) k ++ [d])%list
                 else dependents_of (components s) k)
       ∧ (∀ k, is_Some (components s' !! k) ↔ is_Some (components s !! k))
       ∧ (components s !! d = None → components s !! y = None → s' = s)).
Proof.
  rewrite addComponentRelationship_effect. split; intros ->; [done|].
  eexists. split; [reflexivity|]. split_and!.
  - intros k. apply deps_of_add.
  - intros k. apply dependents_of_add.
  - intros k. apply add_present.
  - intros Hd Hy. apply add_noop; by left.
Qed.

Lemma addComponentRelationship_independent_sides_witness :
  addComponentRelationship "t1" "t2" "web" "constructor" exampleState = TypeError
  ∧ ∃ s', addComponentRelationship "t1" "t2" "web" "queue" exampleState = Done s'
          ∧ deps_of (components s') "web" = ["db"; "queue"].
Proof.
  split.
  - apply (addComponentRelationship_independent_sides "t1" "t2" "web" "constructor"
             exampleState).
    reflexivity.
  - destruct (proj2 (addComponentRelationship_independent_sides "t1" "t2" "web" "queue"
                       exampleState) eq_refl) as (s' & Hs' & Hdeps & _).
    exists s'. split; [exact Hs'|]. rewrite Hdeps. reflexivity.
Defined.

(** ** Active alerts of a component, through the reducers *)

Lemma register_alert_twice now1 now2 k a s :
  register_alert now2 k a (register_alert now1 k a s) = register_alert now1 k a s.
Proof.
  destruct (components (register_alert now1 k a s) !! k) as [c'|] eqn:Hk'.
  - eapply register_alert_present; [exact Hk'|].
    rewrite lookup_register_alert in Hk'.
    destruct (components s !! k) as [c|]; [|done]. simpl in Hk'.
    destruct (includes (active_alerts c) a) eqn:Hi; injection Hk' as <-.
    + by apply includes_true.
    + simpl. apply elem_of_app. right. by apply list_elem_of_singleton.
  - rewrite lookup_register_alert in Hk'. apply fmap_None in Hk'.
    unfold register_alert at 2. rewrite Hk'. unfold register_alert. by rewrite Hk'.
Qed.

Lemma register_alert_list now k a s c' :
  components (register_alert now k a s) !! k = Some c' →
  a ∈ active_alerts c'
  ∧ ∃ c, components s !! k = Some c
         ∧ (NoDup (active_alerts c) → NoDup (active_alerts c')).
Proof.
  rewrite lookup_register_alert.
  destruct (components s !! k) as [c|] eqn:Hk; [|done]. simpl.
  destruct (includes (active_alerts c) a) eqn:Hi; intros [= <-].
  - apply includes_true in Hi. eauto.
  - apply includes_false in Hi. simpl. split.
    + apply elem_of_app. right. by apply list_elem_of_singleton.
    + exists c. split; [done|]. intros Hnd.
      apply NoDup_app. split_and!; [done| |apply NoDup_singleton].
      intros x Hx ->%list_elem_of_singleton. done.
Qed.

(** C9. Registering an alert twice leaves the store as registering it once:
    the second dispatch returns the state it is given (or throws again, on
    an identifier that only names an inherited property, the store being
    untouched both times), so the active_alerts lists agree; the alert is
    then in the list, and a list without duplicates stays without
    duplicates. removeAlertFromComponent on a component of the store
    filters every occurrence of the alert out of its list and keeps the
    other identifiers in order. *)
Theorem active_alert_registration (now1 now2 k a : string)
    (s : InfrastructureState) :
  (∃ s1, storeAfter s (addAlertToComponent now1 k a s) = Some s1
         ∧ storeAfter s1 (addAlertToComponent now2 k a s1) = Some s1
         ∧ (reads_inherited (components s) k = false →
            addAlertToComponent now1 k a s = Done s1
            ∧ addAlertToComponent now2 k a s1 = Done s1
            ∧ ∀ c', components s1 !! k = Some c' →
                a ∈ active_alerts c'
                ∧ ∃ c, components s !! k = Some c
                       ∧ (NoDup (active_alerts c) → NoDup (active_alerts c')))
         ∧ (reads_inherited (components s) k = true →
            addAlertToComponent now1 k a s = TypeError ∧ s1 = s))
  ∧ (∀ c, components s !! k = Some c →
       ∃ s2 c', removeAlertFromComponent now1 k a s = Done s2
                ∧ components s2 !! k = Some c'
                ∧ (a ∉ active_alerts c')
                ∧ active_alerts c' = filter (λ x, x ≠ a) (active_alerts c)).
Proof.
  split.
  - rewrite addAlertToComponent_effect.
    destruct (reads_inherited (components s) k) eqn:Hinh.
    + exists s. simpl. rewrite addAlertToComponent_effect, Hinh. done.
    + exists (register_alert now1 k a s). simpl.
      rewrite addAlertToComponent_effect.
      rewrite (reads_inherited_rewritten _ _ _ _ (lookup_register_alert now1 k a s)), Hinh.
      simpl. rewrite register_alert_twice. split_and!; [done|done| |done].
      intros _. split_and!; [done|done|]. apply register_alert_list.
  - intros c Hk. rewrite removeAlertFromComponent_effect.
    rewrite reads_inherited_own by eauto.
    eexists _, _. split; [reflexivity|]. unfold unregister_alert. rewrite Hk. simpl.
    rewrite lookup_insert_eq. split; [reflexivity|]. simpl.
    split; [apply without_absent | reflexivity].
Qed.

Lemma active_alert_registration_witness :
  (∃ s1, addAlertToComponent "t1" "web" "alert-7" exampleState = Done s1
         ∧ addAlertToComponent "t2" "web" "alert-7" s1 = Done s1)
  ∧ ∃ s2 c', removeAlertFromComponent "t1" "db" "alert-1" exampleState = Done s2
             ∧ components s2 !! "db" = Some c'
             ∧ "alert-1" ∉ active_alerts c'.
Proof.
  split.
  - destruct (active_alert_registration "t1" "t2" "web" "alert-7" exampleState)
      as [(s1 & _ & _ & Hown & _) _].
    destruct (Hown eq_refl) as (H1 & H2 & _). by exists s1.
  - destruct (active_alert_registration "t1" "t2" "db" "alert-1" exampleState)
      as [_ Hrem].
    destruct (Hrem db eq_refl) as (s2 & c' & H1 & H2 & H3 & _). by exists s2, c'.
Defined.

(** ** Loading and storing components *)

Lemma indexInto_ordinary payload (acc : gmap string InfrastructureComponent) :
  Forall (λ c, component_id c ≠ "__proto__") payload →
  indexInto acc payload
  = Some (fold_left (λ acc c, <[component_id c := c]> acc) payload acc).
Proof.
  intros Hall. revert acc. induction Hall as [|c payload Hc _ IH]; intros acc; [done|].
  simpl. rewrite bool_decide_eq_false_2 by done. apply IH.
Qed.

Lemma indexInto_proto payload (acc : gmap string InfrastructureComponent) :
  Exists (λ c, component_id c = "__proto__") payload →
  indexInto acc payload = None.
Proof.
  intros Hex. revert acc. induction Hex as [c payload Hc|c payload _ IH]; intros acc.
  - simpl. by rewrite bool_decide_eq_true_2.
  - simpl. case_bool_decide; [done|]. apply IH.
Qed.

(** X1. fetchComponentsSuccess files each component of the payload under
    its component_id: when no component of the payload is called __proto__
    the dispatch returns a state in which a lookup gives the last payload
    component carrying the identifier (a later duplicate overwrites an
    earlier one) and nothing for an identifier carried by none, whatever
    the store held before; loading is false and the selection is kept. A
    payload holding a component called __proto__ makes the reducer assign
    to that key instead. *)
Theorem fetchComponentsSuccess_last_wins (payload : list InfrastructureComponent)
    (s : InfrastructureState) :
  (Forall (λ c, component_id c ≠ "__proto__") payload →
   ∃ s', fetchComponentsSuccess payload s = Done s'
         ∧ (∀ k, components s' !! k = last_with (λ c, component_id c = k) payload)
         ∧ loading s' = false
         ∧ selectedComponent s' = selectedComponent s)
  ∧ (Exists (λ c, component_id c = "__proto__") payload →
     fetchComponentsSuccess payload s = ProtoAssigned).
Proof.
  unfold fetchComponentsSuccess, indexById. split.
  - intros Hall. rewrite (indexInto_ordinary _ _ Hall). eexists.
    split; [reflexivity|]. split; [|done]. intros k. simpl.
    rewrite lookup_fold_insert. by destruct (last_with _ payload).
  - intros Hex. by rewrite (indexInto_proto _ _ Hex).
Qed.

Lemma fetchComponentsSuccess_last_wins_witness :
  ∃ s', fetchComponentsSuccess [lonely; db; web] exampleState = Done s'
        ∧ components s' !! "web" = Some web.
Proof.
  destruct (proj1 (fetchComponentsSuccess_last_wins [lonely; db; web] exampleState))
    as (s' & Hs' & Hlook & _).
  - apply (bool_decide_unpack _). vm_compute. exact I.
  - exists s'. split; [exact Hs'|]. rewrite Hlook. reflexivity.
Defined.

(** X7. addComponent (and updateComponent, which has the same body) files
    a payload whose identifier is not __proto__ under that identifier,
    replacing what was there and touching no other entry; deleting a
    component just added under a free identifier gives back the components
    of the store, and deleting an identifier that is not in the store
    changes no component. A payload called __proto__ is not filed: the
    reducer assigns to that key. *)
Theorem addComponent_deleteComponent (c : InfrastructureComponent)
    (s : InfrastructureState) (k : string) :
  (component_id c ≠ "__proto__" →
   ∃ s1, addComponent c s = Done s1
         ∧ updateComponent c s = Done s1
         ∧ components s1 !! component_id c = Some c
         ∧ (k ≠ component_id c → components s1 !! k = components s !! k)
         ∧ (components s !! component_id c = None →
            components (deleteComponent (component_id c) s1) = components s))
  ∧ (component_id c = "__proto__" →
     addComponent c s = ProtoAssigned ∧ updateComponent c s = ProtoAssigned)
  ∧ (components s !! k = None → components (deleteComponent k s) = components s).
Proof.
  unfold addComponent, updateComponent, deleteComponent. split_and!.
  - intros Hne. rewrite bool_decide_eq_false_2 by done. eexists.
    split; [reflexivity|]. split; [reflexivity|]. simpl. split_and!.
    + apply lookup_insert_eq.
    + intros Hk. by rewrite lookup_insert_ne.
    + intros Hfree. by rewrite delete_insert_eq, delete_id.
  - intros Heq. by rewrite bool_decide_eq_true_2.
  - intros Habsent. by apply delete_id.
Qed.

Lemma addComponent_deleteComponent_witness :
  ∃ s1, addComponent lonely initialState = Done s1
        ∧ components (deleteComponent "web" s1) = components initialState.
Proof.
  destruct (proj1 (addComponent_deleteComponent lonely initialState "web"))
    as (s1 & Hs1 & _ & _ & _ & Hdel).
  - discriminate.
  - exists s1. split; [exact Hs1|]. apply Hdel. reflexivity.
Defined.

(** ** Invariants of the whole slice *)

Lemma not_Exists_Forall {A : Type} (P : A → Prop) (l : list A) :
  ¬ Exists P l → Forall (λ x, ¬ P x) l.
Proof.
  induction l as [|x l IH]; intros Hn; constructor.
  - intros Hx. apply Hn. by left.
  - apply IH. intros Hl. apply Hn. by right.
Qed.

Lemma key_consistent_store (m : gmap string InfrastructureComponent) c :
  key_consistent m → key_consistent (<[component_id c := c]> m).
Proof.
  intros Hm k c'. destruct (decide (k = component_id c)) as [->|Hne].
  - rewrite lookup_insert_eq. by intros [= <-].
  - rewrite lookup_insert_ne by done. apply Hm.
Qed.

Lemma key_consistent_step s a :
  assigns_proto a = false →
  key_consistent (components s) →
  ∃ s', storeAfter s (reducer s a) = Some s' ∧ key_consistent (components s').
Proof.
  intros Ha Hs. destruct a; simpl in *; eauto.
  - apply bool_decide_eq_false in Ha. apply not_Exists_Forall in Ha.
    unfold fetchComponentsSuccess, indexById. rewrite (indexInto_ordinary _ _ Ha).
    eexists. split; [reflexivity|]. intros k c. simpl. rewrite lookup_fold_insert.
    destruct (last_with _ payload) as [c0|] eqn:Hl; [|done].
    intros [= <-]. apply last_with_Some in Hl. tauto.
  - eexists. split; [reflexivity|].
    eapply key_consistent_rewritten; [|exact Hs]. intros k. eexists.
    split; [|apply lookup_updateComponentStatus].
    by apply keeps_identity_if.
  - unfold addComponent. rewrite Ha. eexists. split; [reflexivity|].
    by apply key_consistent_store.
  - unfold updateComponent. rewrite Ha. eexists. split; [reflexivity|].
    by apply key_consistent_store.
  - eexists. split; [reflexivity|]. intros k c'. simpl.
    intros [_ Hk]%lookup_delete_Some. by apply Hs.
  - rewrite addComponentRelationship_effect. destruct (_ || _); simpl; [eauto|].
    eexists. split; [reflexivity|].
    eapply key_consistent_rewritten; [|exact Hs]. intros k. eexists.
    split; [|apply lookup_record_edge].
    apply keeps_identity_compose; apply keeps_identity_if;
      [apply keeps_identity_push_dependency | apply keeps_identity_push_dependent].
  - rewrite removeComponentRelationship_effect. destruct (_ || _); simpl; [eauto|].
    eexists. split; [reflexivity|].
    eapply key_consistent_rewritten; [|exact Hs]. intros k. eexists.
    split; [|apply lookup_erase_edge].
    by apply keeps_identity_compose; apply keeps_identity_if.
  - rewrite addAlertToComponent_effect. destruct (reads_inherited _ _); simpl; [eauto|].
    eexists. split; [reflexivity|].
    eapply key_consistent_rewritten; [|exact Hs]. intros k. eexists.
    split; [|apply lookup_register_alert_any].
    apply keeps_identity_if, keeps_identity_push_alert.
  - rewrite removeAlertFromComponent_effect. destruct (reads_inherited _ _); simpl; [eauto|].
    eexists. split; [reflexivity|].
    eapply key_consistent_rewritten; [|exact Hs]. intros k. eexists.
    split; [|apply lookup_unregister_alert].
    by apply keeps_identity_if.
Qed.

(** X2. Every component is filed under its own identifier, and stays so:
    from a store with that property (the initial state is one), every
    sequence of actions of the slice in which no payload is called
    __proto__ is carried out and leaves such a store, whatever the other
    payloads and identifiers are; a dispatch that throws changes nothing.
    (The sequence is also taken not to run updateComponentStatus on
    __proto__, which would write onto Object.prototype.) *)
Theorem key_consistent_invariant (acts : list Action) (s : InfrastructureState) :
  Forall (λ a, assigns_proto a = false) acts →
  Forall (λ a, writes_prototype a = false) acts →
  key_consistent (components s) →
  ∃ s', dispatch acts s = Some s' ∧ key_consistent (components s').
Proof.
  intros Hacts _. revert s. induction Hacts as [|a acts Ha _ IH]; intros s Hs;
    [by exists s|].
  destruct (key_consistent_step s a Ha Hs) as (s1 & Hstep & Hs1).
  simpl. rewrite Hstep. simpl. by apply IH.
Qed.

Lemma key_consistent_invariant_witness :
  ∃ s', dispatch
          [DeleteComponent "web";
           AddComponent lonely;
           AddComponentRelationship "t1" "t2" "web" "db";
           AddAlertToComponent "t3" "valueOf" "alert-2";
           UpdateComponentStatus "t4" "db" CRITICAL;
           FetchComponentsSuccess [db; web; lonely]] exampleState = Some s'
        ∧ key_consistent (components s').
Proof.
  apply key_consistent_invariant.
  - apply (bool_decide_unpack _). vm_compute. exact I.
  - apply (bool_decide_unpack _). vm_compute. exact I.
  - apply (bool_decide_unpack _). vm_compute. exact I.
Defined.

Lemma edge_symmetric_step s a :
  stores_payload a = false →
  edge_symmetric (components s) →
  ∃ s', storeAfter s (reducer s a) = Some s' ∧ edge_symmetric (components s').
Proof.
  intros Ha Hs. destruct a; simpl in *; eauto; try discriminate.
  - eexists. split; [reflexivity|].
    eapply edge_symmetric_rewritten; [|exact Hs]. intros k. eexists.
    split; [|apply lookup_updateComponentStatus]. by apply keeps_edges_if.
  - eexists. split; [reflexivity|]. intros a b ca cb. simpl.
    intros [_ Hka]%lookup_delete_Some [_ Hkb]%lookup_delete_Some.
    by apply Hs.
  - rewrite addComponentRelationship_effect.
    destruct (_ || _); simpl; eauto using add_preserves_symmetry.
  - rewrite removeComponentRelationship_effect.
    destruct (_ || _); simpl; eauto using remove_preserves_symmetry.
  - rewrite addAlertToComponent_effect. destruct (reads_inherited _ _); simpl; [eauto|].
    eexists. split; [reflexivity|].
    eapply edge_symmetric_rewritten; [|exact Hs]. intros k. eexists.
    split; [|apply lookup_register_alert_any].
    apply keeps_edges_if, keeps_edges_push_alert.
  - rewrite removeAlertFromComponent_effect. destruct (reads_inherited _ _); simpl; [eauto|].
    eexists. split; [reflexivity|].
    eapply edge_symmetric_rewritten; [|exact Hs]. intros k. eexists.
    split; [|apply lookup_unregister_alert]. by apply keeps_edges_if.
Qed.

(** X3. Edge symmetry is kept by the whole slice except the three actions
    that store a payload as it is (fetchComponentsSuccess, addComponent,
    updateComponent): every sequence of the other actions is carried out
    and leaves a symmetric store. In particular deleteComponent, which
    leaves the deleted identifier in its neighbours' lists, does not break
    the equivalence between the components that remain, and a dispatch that
    throws changes nothing. (As for X2 the sequence is taken not to run
    updateComponentStatus on __proto__.) *)
Theorem edge_symmetry_without_payloads (acts : list Action)
    (s : InfrastructureState) :
  Forall (λ a, stores_payload a = false) acts →
  Forall (λ a, writes_prototype a = false) acts →
  edge_symmetric (components s) →
  ∃ s', dispatch acts s = Some s' ∧ edge_symmetric (components s').
Proof.
  intros Hacts _. revert s. induction Hacts as [|a acts Ha _ IH]; intros s Hs;
    [by exists s|].
  destruct (edge_symmetric_step s a Ha Hs) as (s1 & Hstep & Hs1).
  simpl. rewrite Hstep. simpl. by apply IH.
Qed.

Lemma edge_symmetry_without_payloads_witness :
  ∃ s', dispatch
          [DeleteComponent "db";
           AddComponentRelationship "t1" "t2" "web" "db";
           RemoveComponentRelationship "t3" "t4" "hasOwnProperty" "web";
           RemoveAlertFromComponent "t5" "web" "alert-1";
           SelectComponent "web"] exampleState = Some s'
        ∧ edge_symmetric (components s').
Proof.
  apply edge_symmetry_without_payloads.
  - apply (bool_decide_unpack _). vm_compute. exact I.
  - apply (bool_decide_unpack _). vm_compute. exact I.
  - apply (bool_decide_unpack _). vm_compute. exact I.
Defined.

(** ** Recording and erasing an edge, through the reducers *)

(** X4. With both endpoints in the store addComponentRelationship returns
    normally and records the edge on both sides, and a second dispatch of
    the same edge (at any later time) returns the state it was given:
    recording is idempotent and an edge already recorded is not stamped
    again. *)
Theorem addComponentRelationship_records_once (t1 t2 t3 t4 d y : string)
    (s : InfrastructureState) :
  is_Some (components s !! d) → is_Some (components s !! y) →
  ∃ s', addComponentRelationship t1 t2 d y s = Done s'
        ∧ y ∈ deps_of (components s') d
        ∧ d ∈ dependents_of (components s') y
        ∧ addComponentRelationship t3 t4 d y s' = Done s'.
Proof.
  intros Hd Hy. exists (record_edge t1 t2 d y s).
  assert (y ∈ deps_of (components (record_edge t1 t2 d y s)) d) as H1
    by (apply add_deps; right; done).
  assert (d ∈ dependents_of (components (record_edge t1 t2 d y s)) y) as H2
    by (apply add_dependents; right; done).
  rewrite !addComponentRelationship_effect.
  rewrite !reads_inherited_own by (done || by apply add_present).
  simpl. split_and!; [done|done|done|]. f_equal. apply add_noop; by right.
Qed.

Lemma addComponentRelationship_records_once_witness :
  ∃ s', addComponentRelationship "t1" "t2" "db" "web" exampleState = Done s'
        ∧ "web" ∈ deps_of (components s') "db"
        ∧ "db" ∈ dependents_of (components s') "web".
Proof.
  destruct (addComponentRelationship_records_once "t1" "t2" "t3" "t4" "db" "web"
              exampleState ltac:(by eexists) ltac:(by eexists))
    as (s' & H0 & H1 & H2 & _).
  by exists s'.
Defined.

(** X5. removeComponentRelationship throws exactly when one of the two
    identifiers is not a key of the store but names an inherited property,
    and then the store keeps its lists. Whenever it returns, the edge is
    erased: dependencyId occurs nowhere in the dependencies of dependentId
    and dependentId nowhere in the dependents of dependencyId (duplicates
    included), the remaining identifiers keep their order, and no other
    list of the store changes. *)
Theorem removeComponentRelationship_erases_edge (t1 t2 d y : string)
    (s : InfrastructureState) :
  (reads_inherited (components s) d || reads_inherited (components s) y = true →
   removeComponentRelationship t1 t2 d y s = TypeError)
  ∧ (reads_inherited (components s) d || reads_inherited (components s) y = false →
     ∃ s', removeComponentRelationship t1 t2 d y s = Done s'
       ∧ (y ∉ deps_of (components s') d)
       ∧ (d ∉ dependents_of (components s') y)
       ∧ deps_of (components s') d = filter (λ x, x ≠ y) (deps_of (components s) d)
       ∧ dependents_of (components s') y
         = filter (λ x, x ≠ d) (dependents_of (components s) y)
       ∧ (∀ k, k ≠ d → deps_of (components s') k = deps_of (components s) k)
       ∧ (∀ k, k ≠ y →
            dependents_of (components s') k = dependents_of (components s) k)).
Proof.
  rewrite removeComponentRelationship_effect. split; intros ->; [done|].
  eexists. split; [reflexivity|]. split_and!.
  - rewrite deps_of_remove, decide_True by done. apply without_absent.
  - rewrite dependents_of_remove, decide_True by done. apply without_absent.
  - by rewrite deps_of_remove, decide_True.
  - by rewrite dependents_of_remove, decide_True.
  - intros k Hk. by rewrite deps_of_remove, decide_False.
  - intros k Hk. by rewrite dependents_of_remove, decide_False.
Qed.

Lemma removeComponentRelationship_erases_edge_witness :
  removeComponentRelationship "t1" "t2" "constructor" "db" exampleState = TypeError
  ∧ ∃ s', removeComponentRelationship "t1" "t2" "web" "db" exampleState = Done s'
          ∧ deps_of (components s') "web" = []
          ∧ dependents_of (components s') "db" = [].
Proof.
  split.
  - apply (removeComponentRelationship_erases_edge "t1" "t2" "constructor" "db"
             exampleState).
    reflexivity.
  - destruct (proj2 (removeComponentRelationship_erases_edge "t1" "t2" "web" "db"
                       exampleState) eq_refl) as (s' & Hs' & _ & _ & Hdeps & Hdpts & _).
    exists s'. split; [exact Hs'|]. rewrite Hdeps, Hdpts. split; reflexivity.
Defined.

(** X6. Recording an edge that was on neither side and erasing it again
    gives back every dependency and dependent list of the store, element
    for element; both dispatches return normally when neither identifier
    only names an inherited property. *)
Theorem add_then_remove_restores_lists (t1 t2 t3 t4 d y : string)
    (s : InfrastructureState) :
  reads_inherited (components s) d = false →
  reads_inherited (components s) y = false →
  y ∉ deps_of (components s) d →
  d ∉ dependents_of (components s) y →
  ∃ s1 s2, addComponentRelationship t1 t2 d y s = Done s1
           ∧ removeComponentRelationship t3 t4 d y s1 = Done s2
           ∧ ∀ k, deps_of (components s2) k = deps_of (components s) k
                  ∧ dependents_of (components s2) k = dependents_of (components s) k.
Proof.
  intros Hid Hiy Hy Hd.
  exists (record_edge t1 t2 d y s), (erase_edge t3 t4 d y (record_edge t1 t2 d y s)).
  rewrite addComponentRelationship_effect, removeComponentRelationship_effect.
  rewrite !(reads_inherited_rewritten _ _ _ _ (lookup_record_edge t1 t2 d y s _)).
  rewrite Hid, Hiy. simpl. split_and!; [done|done|]. intros k. split.
  - rewrite deps_of_remove, deps_of_add.
    destruct (decide (k = d)) as [->|Hne]; [|by rewrite decide_False by tauto].
    case_decide; [by rewrite without_snoc, without_fresh | by rewrite without_fresh].
  - rewrite dependents_of_remove, dependents_of_add.
    destruct (decide (k = y)) as [->|Hne]; [|by rewrite decide_False by tauto].
    case_decide; [by rewrite without_snoc, without_fresh | by rewrite without_fresh].
Qed.

Lemma add_then_remove_restores_lists_witness :
  ∃ s1 s2, addComponentRelationship "t1" "t2" "db" "web" exampleState = Done s1
           ∧ removeComponentRelationship "t3" "t4" "db" "web" s1 = Done s2
           ∧ deps_of (components s2) "db" = deps_of (components exampleState) "db".
Proof.
  destruct (add_then_remove_restores_lists "t1" "t2" "t3" "t4" "db" "web" exampleState)
    as (s1 & s2 & H1 & H2 & Hlists).
  - reflexivity.
  - reflexivity.
  - apply (bool_decide_unpack _). vm_compute. exact I.
  - apply (bool_decide_unpack _). vm_compute. exact I.
  - exists s1, s2. split; [exact H1|]. split; [exact H2|]. apply Hlists.
Defined.

(** X8. Registering an alert appends it at the end of the component's
    active alerts when it is not there yet; unregistering it afterwards
    gives back the list as it was. Unregistering an alert that is not
    registered keeps the list but still stamps the component. On a
    component of the store all three dispatches return normally. *)
Theorem register_then_unregister (t1 t2 k a : string) (s : InfrastructureState)
    (c : InfrastructureComponent) :
  components s !! k = Some c →
  a ∉ active_alerts c →
  ∃ s1 s2 s3,
    addAlertToComponent t1 k a s = Done s1
    ∧ removeAlertFromComponent t2 k a s1 = Done s2
    ∧ removeAlertFromComponent t2 k a s = Done s3
    ∧ (∃ c1, components s1 !! k = Some c1
             ∧ active_alerts c1 = (active_alerts c ++ [a])%list
             ∧ updated_at c1 = t1)
    ∧ (∃ c2, components s2 !! k = Some c2
             ∧ active_alerts c2 = active_alerts c)
    ∧ (∃ c3, components s3 !! k = Some c3
             ∧ active_alerts c3 = active_alerts c
             ∧ updated_at c3 = t2).
Proof.
  intros Hk Ha. apply includes_false in Ha as Hi.
  exists (register_alert t1 k a s),
         (unregister_alert t2 k a (register_alert t1 k a s)),
         (unregister_alert t2 k a s).
  rewrite addAlertToComponent_effect, !removeAlertFromComponent_effect.
  rewrite (reads_inherited_rewritten _ _ _ _ (lookup_register_alert t1 k a s)).
  rewrite reads_inherited_own by eauto. split_and!; [done|done|done|..].
  all: rewrite ?lookup_unregister_alert, ?lookup_register_alert_any, Hk,
         ?decide_True by done; simpl; unfold push_alert, drop_alert; rewrite ?Hi; simpl.
  - eexists. split; [reflexivity|]. done.
  - eexists. split; [reflexivity|]. simpl. by rewrite without_snoc, without_fresh.
  - eexists. split; [reflexivity|]. simpl. by rewrite without_fresh.
Qed.

Lemma register_then_unregister_witness :
  ∃ s1 s2, addAlertToComponent "t1" "web" "alert-9" exampleState = Done s1
           ∧ removeAlertFromComponent "t2" "web" "alert-9" s1 = Done s2
           ∧ ∃ c2, components s2 !! "web" = Some c2
                   ∧ active_alerts c2 = active_alerts web.
Proof.
  destruct (register_then_unregister "t1" "t2" "web" "alert-9" exampleState web)
    as (s1 & s2 & _ & H1 & H2 & _ & _ & H4 & _).
  - reflexivity.
  - apply (bool_decide_unpack _). vm_compute. exact I.
  - by exists s1, s2.
Defined.

End InfrastructureFacts.

(* ===================================================================== *)
(** * Properties of the alerts slice *)
Module AlertsFacts.
Import Alerts.

Lemma applyStatus_fields now st notes a :
  alert_id (applyStatus now st notes a) = alert_id a
  ∧ status (applyStatus now st notes a) = st
  ∧ update_history (applyStatus now st notes a) = update_history a
  ∧ resolution_notes (applyStatus now st notes a)
    = (if truthy notes then notes else resolution_notes a)
  ∧ resolution_time (applyStatus now st notes a)
    = (if bool_decide (st = RESOLVED) && negb (truthy (resolution_time a))
       then Some now else resolution_time a).
Proof.
  unfold applyStatus.
  destruct (truthy notes); simpl;
    destruct (bool_decide (st = RESOLVED) && negb (truthy (resolution_time a)));
    simpl; done.
Qed.

Lemma findAlert_Some id l i a :
  findAlert id l = Some (i, a) → l !! i = Some a ∧ alert_id a = id.
Proof. unfold findAlert. intros (? & ? & _)%list_find_Some. done. Qed.

(** The array after one dispatch, position by position: the element found
    is replaced by its updated version, the others are kept. *)
Lemma lookup_updateAlertStatus now id st notes s j a :
  alerts s !! j = Some a →
  alerts (updateAlertStatus now id st notes s) !! j
  = Some (if decide (fst <$> findAlert id (alerts s) = Some j)
          then applyStatus now st notes a else a).
Proof.
  intros Hj. unfold updateAlertStatus. simpl.
  destruct (findAlert id (alerts s)) as [[i a0]|] eqn:Hf; simpl; [|done].
  apply findAlert_Some in Hf as [Hi _].
  destruct (decide (Some i = Some j)) as [[= ->]|Hne].
  - rewrite list_lookup_insert_eq by (by eapply lookup_lt_Some). congruence.
  - rewrite list_lookup_insert_ne by congruence. done.
Qed.

Lemma length_updateAlertStatus now id st notes s :
  length (alerts (updateAlertStatus now id st notes s)) = length (alerts s).
Proof.
  unfold updateAlertStatus. simpl.
  destruct (findAlert id (alerts s)) as [[i a0]|]; simpl; [|done].
  apply length_insert.
Qed.

Lemma truthy_nonempty now : now ≠ "" → truthy (Some now) = true.
Proof.
  intros Hne. simpl. apply negb_true_iff. by apply String.eqb_neq.
Qed.

(** A resolution_time that is set survives one dispatch. *)
Lemma update_keeps_set_time now id st notes s j a :
  alerts s !! j = Some a → truthy (resolution_time a) = true →
  ∃ a', alerts (updateAlertStatus now id st notes s) !! j = Some a'
        ∧ resolution_time a' = resolution_time a.
Proof.
  intros Hj Hset. eexists. split; [by apply lookup_updateAlertStatus|].
  case_decide; [|done].
  destruct (applyStatus_fields now st notes a) as (_ & _ & _ & _ & ->).
  by rewrite Hset, andb_false_r.
Qed.

Lemma dispatch_keeps_set_time us s j a :
  alerts s !! j = Some a → truthy (resolution_time a) = true →
  ∃ a', alerts (dispatchUpdates us s) !! j = Some a'
        ∧ resolution_time a' = resolution_time a.
Proof.
  revert s a. induction us as [|u us IH]; intros s a Hj Hset; [by exists a|].
  change (dispatchUpdates (u :: us) s) with (dispatchUpdates us (statusReducer s u)).
  destruct (update_keeps_set_time (su_now u) (su_alertId u) (su_status u)
              (su_notes u) s j a Hj Hset) as (a1 & Hj1 & Ht1).
  destruct (IH (statusReducer s u) a1 Hj1) as (a2 & Hj2 & Ht2); [congruence|].
  exists a2. split; [done|congruence].
Qed.

(** The histories of the store after one dispatch. *)
Lemma update_keeps_histories now id st notes s :
  update_history <$> alerts (updateAlertStatus now id st notes s)
  = update_history <$> alerts s.
Proof.
  apply list_eq. intros j. rewrite !list_lookup_fmap.
  destruct (alerts s !! j) as [a|] eqn:Hj.
  - rewrite (lookup_updateAlertStatus _ _ _ _ _ _ _ Hj). simpl.
    case_decide; [|done]. f_equal. apply applyStatus_fields.
  - apply lookup_ge_None in Hj.
    rewrite (proj2 (lookup_ge_None _ _)); [done|].
    by rewrite length_updateAlertStatus.
Qed.

(** The alert found, after one dispatch. *)
Lemma found_alert_after_update now id st notes s i a :
  findAlert id (alerts s) = Some (i, a) →
  ∃ a', alerts (updateAlertStatus now id st notes s) !! i = Some a'
    ∧ status a' = st
    ∧ alert_id a' = alert_id a
    ∧ update_history a' = update_history a
    ∧ resolution_notes a' = (if truthy notes then notes else resolution_notes a)
    ∧ resolution_time a'
      = (if bool_decide (st = RESOLVED) && negb (truthy (resolution_time a))
         then Some now else resolution_time a).
Proof.
  intros Hf. pose proof (findAlert_Some _ _ _ _ Hf) as [Hi _].
  exists (applyStatus now st notes a). split.
  - rewrite (lookup_updateAlertStatus _ _ _ _ _ _ _ Hi), Hf. simpl.
    by rewrite decide_True.
  - destruct (applyStatus_fields now st notes a) as (? & ? & ? & ? & ?). done.
Qed.

(** C4, counterexample. The backward transitions acknowledged → new and
    closed → new are carried out: the alert ends in status new. *)
Lemma backward_transition_is_applied :
  backward ACKNOWLEDGED NEW ∧ backward CLOSED NEW
  ∧ status <$> alerts exampleState !! 0 = Some ACKNOWLEDGED
  ∧ status <$> alerts (updateAlertStatus "2024-03-02T00:00:00.000Z" "alert-1" NEW None
                         exampleState) !! 0 = Some NEW
  ∧ status <$> alerts exampleState !! 1 = Some CLOSED
  ∧ status <$> alerts (updateAlertStatus "2024-03-02T00:00:00.000Z" "alert-2" NEW None
                         exampleState) !! 1 = Some NEW.
Proof. unfold backward. simpl. split_and!; (lia || reflexivity). Qed.

(** C4, amended. updateAlertStatus has no failure outcome and checks no
    transition: the first alert carrying the identifier takes the requested
    status whatever its status was, backward transitions included. Its
    identifier and update history are as before; resolution_notes is
    overwritten exactly when non-empty notes are passed, and
    resolution_time is assigned exactly when the requested status is
    resolved and none was set. *)
Theorem updateAlertStatus_sets_any_status (now id : string) (st : AlertStatus)
    (notes : option string) (s : AlertsState) (i : nat) (a : Alert) :
  findAlert id (alerts s) = Some (i, a) →
  ∃ a', alerts (updateAlertStatus now id st notes s) !! i = Some a'
    ∧ status a' = st
    ∧ alert_id a' = alert_id a
    ∧ update_history a' = update_history a
    ∧ resolution_notes a' = (if truthy notes then notes else resolution_notes a)
    ∧ resolution_time a'
      = (if bool_decide (st = RESOLVED) && negb (truthy (resolution_time a))
         then Some now else resolution_time a).
Proof.
  apply found_alert_after_update.
Qed.

Lemma updateAlertStatus_sets_any_status_witness :
  ∃ a', alerts (updateAlertStatus "2024-03-02T00:00:00.000Z" "alert-2" NEW None
                  exampleState) !! 1 = Some a'
        ∧ status a' = NEW.
Proof.
  destruct (updateAlertStatus_sets_any_status "2024-03-02T00:00:00.000Z" "alert-2"
              NEW None exampleState 1 closedAlert eq_refl)
    as (a' & Hl & Hst & _).
  exists a'. split; [exact Hl | exact Hst].
Defined.

(** C5. resolution_time is written once. A dispatch with status resolved
    leaves the alert found with a resolution_time: the one it had, or the
    clock reading when it had none; and whatever dispatches follow, that
    value stays. More generally a resolution_time that is set is kept by
    every sequence of dispatches. (Set is meant as the source tests it,
    [!alert.resolution_time]; the clock reading is an ISO timestamp, hence
    not the empty string.) *)
Theorem resolution_time_write_once (s : AlertsState) (now id : string)
    (notes : option string) (i : nat) (a : Alert) (us : list StatusUpdate) :
  findAlert id (alerts s) = Some (i, a) →
  now ≠ "" →
  let s1 := updateAlertStatus now id RESOLVED notes s in
  (∃ a1 a2,
      alerts s1 !! i = Some a1
      ∧ resolution_time a1
        = (if truthy (resolution_time a) then resolution_time a else Some now)
      ∧ truthy (resolution_time a1) = true
      ∧ alerts (dispatchUpdates us s1) !! i = Some a2
      ∧ resolution_time a2 = resolution_time a1)
  ∧ (∀ j b, alerts s !! j = Some b → truthy (resolution_time b) = true →
       ∃ b', alerts (dispatchUpdates us s) !! j = Some b'
             ∧ resolution_time b' = resolution_time b).
Proof.
  intros Hf Hnow s1. split; [|intros j b; apply dispatch_keeps_set_time].
  destruct (found_alert_after_update now id RESOLVED notes s i a Hf)
    as (a1 & Hi1 & _ & _ & _ & _ & Ht1).
  rewrite bool_decide_eq_true_2 in Ht1 by done. simpl in Ht1.
  assert (resolution_time a1
          = if truthy (resolution_time a) then resolution_time a else Some now)
    as Ht1' by (rewrite Ht1; by destruct (truthy (resolution_time a))).
  assert (truthy (resolution_time a1) = true) as Hset.
  { rewrite Ht1'. destruct (truthy (resolution_time a)) eqn:Hold; [done|].
    by apply truthy_nonempty. }
  destruct (dispatch_keeps_set_time us s1 i a1 Hi1 Hset) as (a2 & Hi2 & Ht2).
  exists a1, a2. done.
Qed.

Lemma resolution_time_write_once_witness :
  ∃ a2, alerts (dispatchUpdates
                  [mkStatusUpdate "2024-03-03T00:00:00.000Z" "alert-3" RESOLVED None;
                   mkStatusUpdate "2024-03-04T00:00:00.000Z" "alert-3" NEW (Some "reopened");
                   mkStatusUpdate "2024-03-05T00:00:00.000Z" "alert-3" RESOLVED None]
                  (updateAlertStatus "2024-03-02T00:00:00.000Z" "alert-3" RESOLVED None
                     exampleState)) !! 2 = Some a2
        ∧ resolution_time a2 = Some "2024-03-02T00:00:00.000Z".
Proof.
  destruct (resolution_time_write_once exampleState "2024-03-02T00:00:00.000Z"
              "alert-3" None 2 freshAlert
              [mkStatusUpdate "2024-03-03T00:00:00.000Z" "alert-3" RESOLVED None;
               mkStatusUpdate "2024-03-04T00:00:00.000Z" "alert-3" NEW (Some "reopened");
               mkStatusUpdate "2024-03-05T00:00:00.000Z" "alert-3" RESOLVED None]
              eq_refl ltac:(discriminate))
    as [(a1 & a2 & _ & Ht1 & _ & Hi2 & Ht2) _].
  exists a2. split; [exact Hi2|]. rewrite Ht2. exact Ht1.
Defined.

(** C6, counterexample. The transition new → acknowledged of the third
    example alert goes through, and its history has as many entries after
    as before (none), not one more. *)
Lemma transition_appends_no_history_entry :
  status <$> alerts exampleState !! 2 = Some NEW
  ∧ history_length <$> alerts exampleState !! 2 = Some 0
  ∧ status <$> alerts (updateAlertStatus "2024-03-02T00:00:00.000Z" "alert-3"
                         ACKNOWLEDGED None exampleState) !! 2 = Some ACKNOWLEDGED
  ∧ history_length <$> alerts (updateAlertStatus "2024-03-02T00:00:00.000Z" "alert-3"
                                 ACKNOWLEDGED None exampleState) !! 2 ≠ Some 1.
Proof. split_and!; try reflexivity. discriminate. Qed.

(** C6, amended. Dispatching updateAlertStatus never touches a history:
    after any sequence of dispatches the update histories of the alerts of
    the store are, position by position, what they were. No entry is
    appended for a transition and none is removed. *)
Theorem updateAlertStatus_keeps_histories (us : list StatusUpdate) (s : AlertsState) :
  update_history <$> alerts (dispatchUpdates us s) = update_history <$> alerts s.
Proof.
  revert s. induction us as [|u us IH]; intros s; [done|].
  change (dispatchUpdates (u :: us) s) with (dispatchUpdates us (statusReducer s u)).
  rewrite IH. apply update_keeps_histories.
Qed.

(** ** The list of alerts and the selection *)

Lemma applyStatus_id now st notes a :
  alert_id (applyStatus now st notes a) = alert_id a.
Proof. apply applyStatus_fields. Qed.

Lemma ids_updateAlertStatus now id st notes s :
  alert_id <$> alerts (updateAlertStatus now id st notes s) = alert_id <$> alerts s.
Proof.
  apply list_eq. intros j. rewrite !list_lookup_fmap.
  destruct (alerts s !! j) as [a|] eqn:Hj.
  - rewrite (lookup_updateAlertStatus _ _ _ _ _ _ _ Hj). simpl.
    case_decide; [|done]. by rewrite applyStatus_id.
  - apply lookup_ge_None in Hj.
    rewrite (proj2 (lookup_ge_None _ _)); [done|].
    by rewrite length_updateAlertStatus.
Qed.

(** Looking an identifier up in a list with the same identifiers, position
    by position, finds the same position. *)
Lemma findAlert_same_ids (l l' : list Alert) k i a :
  alert_id <$> l' = alert_id <$> l →
  findAlert k l = Some (i, a) →
  ∃ a', l' !! i = Some a' ∧ findAlert k l' = Some (i, a').
Proof.
  intros Hids (Hi & Hid & Hmin)%list_find_Some.
  assert (∀ j, alert_id <$> l' !! j = alert_id <$> l !! j) as Hcol
    by (intros j; by rewrite <- !list_lookup_fmap, Hids).
  pose proof (Hcol i) as Hci. rewrite Hi in Hci. simpl in Hci.
  destruct (l' !! i) as [a'|] eqn:Hi'; [|done]. injection Hci as Hida.
  exists a'. split; [done|]. apply list_find_Some. split_and!; [done|congruence|].
  intros j y' Hj' Hlt Hy'. pose proof (Hcol j) as Hcj. rewrite Hj' in Hcj.
  destruct (l !! j) as [y|] eqn:Hj; [|done]. injection Hcj as Hidy.
  apply (Hmin j y Hj Hlt). congruence.
Qed.

Lemma findAlert_cons k x l :
  findAlert k (x :: l)
  = if decide (alert_id x = k) then Some (0, x)
    else prod_map S id <$> findAlert k l.
Proof. reflexivity. Qed.

Lemma findAlert_filter (Q : Alert → Prop) `{∀ a, Decision (Q a)} l k i a :
  findAlert k l = Some (i, a) → Q a →
  ∃ i', findAlert k (filter Q l) = Some (i', a).
Proof.
  revert i. induction l as [|x l IH]; intros i Hf Hq; [done|].
  rewrite findAlert_cons in Hf.
  destruct (decide (alert_id x = k)) as [Hx|Hx].
  - injection Hf as <- <-. rewrite filter_cons_True by done.
    exists 0. by rewrite findAlert_cons, decide_True.
  - destruct (findAlert k l) as [[i0 a0]|] eqn:Hl; [|done].
    injection Hf as <- <-. destruct (IH i0 eq_refl Hq) as [i' Hi'].
    destruct (decide (Q x)).
    + rewrite filter_cons_True by done. exists (S i').
      rewrite findAlert_cons, decide_False by done. by rewrite Hi'.
    + rewrite filter_cons_False by done. by exists i'.
Qed.

Lemma findAlert_filter_gone l k :
  findAlert k (filter (λ a, alert_id a ≠ k) l) = None.
Proof.
  unfold findAlert. apply list_find_None, Forall_forall.
  intros a [Ha _]%list_elem_of_filter. by intros ?.
Qed.

Lemma updateAlertStatus_unknown now id st notes s :
  findAlert id (alerts s) = None →
  alerts (updateAlertStatus now id st notes s) = alerts s.
Proof. intros Hf. unfold updateAlertStatus. by rewrite Hf. Qed.

Lemma ids_insert_same (l : list Alert) i old new :
  l !! i = Some old → alert_id new = alert_id old →
  alert_id <$> <[i := new]> l = alert_id <$> l.
Proof.
  intros Hi Hid. rewrite list_fmap_insert, Hid.
  apply list_insert_id. by rewrite list_lookup_fmap, Hi.
Qed.

Lemma selection_current_updateAlertStatus now id st notes s :
  selection_current s → selection_current (updateAlertStatus now id st notes s).
Proof.
  unfold selection_current.
  destruct (selectedAlert s) as [|sel|] eqn:Hsel; [| |done].
  - unfold updateAlertStatus. simpl. by rewrite Hsel.
  - intros [i Hf].
    destruct (findAlert_same_ids _ _ _ _ _ (ids_updateAlertStatus now id st notes s) Hf)
      as (a' & Hi' & Hf').
    pose proof (findAlert_Some _ _ _ _ Hf) as [Hi _].
    rewrite (lookup_updateAlertStatus _ _ _ _ _ _ _ Hi) in Hi'.
    assert (selectedAlert (updateAlertStatus now id st notes s) = AlertCopy a') as ->.
    { unfold updateAlertStatus. simpl. rewrite Hsel.
      case_bool_decide as Hid.
      - subst id. rewrite Hf in *. simpl in *. rewrite decide_True in Hi' by done.
        congruence.
      - case_decide as Hfound; [|congruence].
        destruct (findAlert id (alerts s)) as [[j b]|] eqn:Hb; [|done].
        simpl in Hfound. injection Hfound as ->.
        apply findAlert_Some in Hb as [Hb Hbid]. congruence. }
    exists i. assert (alert_id a' = alert_id sel) as ->; [|done].
    injection Hi' as <-. case_decide; [apply applyStatus_id | done].
Qed.

Lemma selection_current_updateAlert payload s :
  selection_current s → selection_current (updateAlert payload s).
Proof.
  unfold selection_current, updateAlert.
  destruct (findAlert (alert_id payload) (alerts s)) as [[idx old]|] eqn:Hp; [|done].
  pose proof (findAlert_Some _ _ _ _ Hp) as [Hidx Hold]. simpl.
  pose proof (ids_insert_same _ _ _ payload Hidx (eq_sym Hold)) as Hids.
  destruct (selectedAlert s) as [|sel|] eqn:Hsel; simpl; [done| |done].
  intros [i Hf]. case_bool_decide as Hid.
  - destruct (findAlert_same_ids _ _ _ _ _ Hids Hp) as (a' & Hi' & Hf').
    rewrite list_lookup_insert_eq in Hi' by (by eapply lookup_lt_Some).
    injection Hi' as <-. by exists idx.
  - destruct (findAlert_same_ids _ _ _ _ _ Hids Hf) as (a' & Hi' & Hf').
    pose proof (findAlert_Some _ _ _ _ Hf) as [Hi _].
    rewrite list_lookup_insert_ne in Hi' by (intros ->; congruence).
    exists i. congruence.
Qed.

Lemma selection_current_deleteAlert id s :
  selection_current s → selection_current (deleteAlert id s).
Proof.
  unfold selection_current, deleteAlert.
  destruct (selectedAlert s) as [|sel|] eqn:Hsel; simpl; [done| |done].
  intros [i Hf]. case_bool_decide as Hid; [done|].
  by apply (findAlert_filter _ _ _ _ _ Hf).
Qed.

Lemma selection_current_selectAlert id s : selection_current (selectAlert id s).
Proof.
  unfold selection_current, selectAlert. simpl.
  destruct (findAlert id (alerts s)) as [[i a]|] eqn:Hf; simpl; [|done].
  exists i. pose proof (findAlert_Some _ _ _ _ Hf) as [_ ->]. done.
Qed.

(** X9. The selection follows the list. From a state whose selected alert
    is the first alert of the list with its identifier, every sequence of
    actions that brings no alert in from outside (everything except
    fetchAlertsSuccess and addNewAlert) ends in such a state: the copy kept
    in selectedAlert is updated with the alert by updateAlertStatus and
    updateAlert, dropped with it by deleteAlert, and never becomes the
    empty object. *)
Theorem selection_stays_current (acts : list Action) (s : AlertsState) :
  Forall (λ a, brings_alerts a = false) acts →
  selection_current s →
  selection_current (dispatch acts s).
Proof.
  revert s. induction acts as [|a acts IH]; intros s Hacts Hs; [done|].
  apply Forall_cons in Hacts as [Ha Hacts]. simpl. apply IH; [done|].
  destruct a; try discriminate; unfold reducer.
  - exact Hs.
  - exact Hs.
  - apply selection_current_selectAlert.
  - exact I.
  - by apply selection_current_updateAlertStatus.
  - exact Hs.
  - exact Hs.
  - by apply selection_current_updateAlert.
  - by apply selection_current_deleteAlert.
Qed.

Lemma selection_stays_current_witness :
  selection_current (dispatch
    [SelectAlert "alert-3";
     UpdateAlertStatus "2024-03-02T00:00:00.000Z" "alert-3" RESOLVED (Some "fixed");
     DeleteAlert "alert-1";
     UpdateAlertStatus "2024-03-03T00:00:00.000Z" "alert-3" CLOSED None] exampleState).
Proof.
  apply selection_stays_current.
  - repeat constructor.
  - exact I.
Defined.

(** X10. A selection that outlived its alert. When the list holds no alert
    with the identifier while the selected copy carries it (as after
    selectAlert followed by a fetchAlertsSuccess that no longer brings the
    alert), updateAlertStatus leaves the list as it is and replaces the
    selection by the empty object. *)
Theorem updateAlertStatus_stale_selection (now id : string) (st : AlertStatus)
    (notes : option string) (s : AlertsState) (sel : Alert) :
  findAlert id (alerts s) = None →
  selectedAlert s = AlertCopy sel → alert_id sel = id →
  alerts (updateAlertStatus now id st notes s) = alerts s
  ∧ selectedAlert (updateAlertStatus now id st notes s) = EmptyAlert.
Proof.
  intros Hf Hsel Hid. unfold updateAlertStatus. rewrite Hf, Hsel. simpl.
  by rewrite bool_decide_eq_true_2.
Qed.

Lemma updateAlertStatus_stale_selection_witness :
  selectedAlert
    (updateAlertStatus "2024-03-02T00:00:00.000Z" "alert-3" ACKNOWLEDGED None
       (fetchAlertsSuccess [diskAlert] (selectAlert "alert-3" exampleState)))
  = EmptyAlert.
Proof.
  apply (updateAlertStatus_stale_selection "2024-03-02T00:00:00.000Z" "alert-3"
           ACKNOWLEDGED None
           (fetchAlertsSuccess [diskAlert] (selectAlert "alert-3" exampleState))
           freshAlert); reflexivity.
Defined.

(** X11. updateAlertStatus rewrites one element at most: the first alert
    carrying the identifier. The list keeps its length and its identifiers
    position by position, every other position holds the alert it held
    (a later alert with the same identifier included), and with no alert
    carrying the identifier the list is returned as it is. *)
Theorem updateAlertStatus_first_match_only (now id : string) (st : AlertStatus)
    (notes : option string) (s : AlertsState) :
  let s' := updateAlertStatus now id st notes s in
  alert_id <$> alerts s' = alert_id <$> alerts s
  ∧ length (alerts s') = length (alerts s)
  ∧ (∀ j, fst <$> findAlert id (alerts s) ≠ Some j → alerts s' !! j = alerts s !! j)
  ∧ (findAlert id (alerts s) = None → alerts s' = alerts s).
Proof.
  intros s'. subst s'. split_and!.
  - apply ids_updateAlertStatus.
  - apply length_updateAlertStatus.
  - intros j Hj. destruct (alerts s !! j) as [a|] eqn:Ha.
    + rewrite (lookup_updateAlertStatus _ _ _ _ _ _ _ Ha). by rewrite decide_False.
    + apply lookup_ge_None in Ha. apply lookup_ge_None.
      by rewrite length_updateAlertStatus.
  - apply updateAlertStatus_unknown.
Qed.

Lemma updateAlertStatus_first_match_only_witness :
  alerts (updateAlertStatus "2024-03-02T00:00:00.000Z" "alert-3" CLOSED None
            (addNewAlert freshAlert exampleState)) !! 3
  = alerts (addNewAlert freshAlert exampleState) !! 3.
Proof.
  apply (updateAlertStatus_first_match_only "2024-03-02T00:00:00.000Z" "alert-3"
           CLOSED None (addNewAlert freshAlert exampleState)).
  simpl. discriminate.
Defined.

(** X12. updateAlert never adds an alert: with no alert carrying the
    payload's identifier the state is returned unchanged. Otherwise the
    payload takes the place of the first such alert, is what a lookup of
    the identifier finds afterwards, and the other positions are kept. *)
Theorem updateAlert_replaces_first (payload : Alert) (s : AlertsState) :
  (findAlert (alert_id payload) (alerts s) = None → updateAlert payload s = s)
  ∧ (∀ i old, findAlert (alert_id payload) (alerts s) = Some (i, old) →
       alerts (updateAlert payload s) = <[i := payload]> (alerts s)
       ∧ findAlert (alert_id payload) (alerts (updateAlert payload s)) = Some (i, payload)
       ∧ length (alerts (updateAlert payload s)) = length (alerts s)
       ∧ ∀ j, j ≠ i → alerts (updateAlert payload s) !! j = alerts s !! j).
Proof.
  unfold updateAlert. split.
  - by intros ->.
  - intros i old Hf. rewrite Hf. simpl.
    pose proof (findAlert_Some _ _ _ _ Hf) as [Hi Hold].
    split_and!; [done| |apply length_insert|].
    + destruct (findAlert_same_ids _ _ _ _ _
                  (ids_insert_same _ _ _ payload Hi (eq_sym Hold)) Hf)
        as (a' & Hi' & Hf').
      rewrite list_lookup_insert_eq in Hi' by (by eapply lookup_lt_Some).
      congruence.
    + intros j Hne. by rewrite list_lookup_insert_ne.
Qed.

Lemma updateAlert_replaces_first_witness :
  updateAlert (set_status CLOSED (mkAlert "alert-9" "" "" "" LOW "" NEW [] None None None None None))
    exampleState = exampleState.
Proof.
  apply (updateAlert_replaces_first _ exampleState). reflexivity.
Defined.

(** X13. deleteAlert removes every alert carrying the identifier and keeps
    the others in their order; a selection naming the identifier is
    cleared, any other is kept; afterwards a lookup of the identifier finds
    nothing, so an updateAlertStatus for it leaves the list alone. *)
Theorem deleteAlert_removes_all (now id : string) (st : AlertStatus)
    (notes : option string) (s : AlertsState) :
  let s' := deleteAlert id s in
  alerts s' = filter (λ a, alert_id a ≠ id) (alerts s)
  ∧ findAlert id (alerts s') = None
  ∧ (∀ a, a ∈ alerts s' ↔ a ∈ alerts s ∧ alert_id a ≠ id)
  ∧ alerts (updateAlertStatus now id st notes s') = alerts s'
  ∧ (selectedIs id (selectedAlert s) = true → selectedAlert s' = NoAlert)
  ∧ (selectedIs id (selectedAlert s) = false → selectedAlert s' = selectedAlert s).
Proof.
  intros s'. subst s'. split_and!.
  - done.
  - exact (findAlert_filter_gone _ _).
  - intros a. simpl. rewrite list_elem_of_filter. tauto.
  - apply updateAlertStatus_unknown. exact (findAlert_filter_gone _ _).
  - simpl. by intros ->.
  - simpl. by intros ->.
Qed.

Lemma deleteAlert_removes_all_witness :
  selectedAlert (deleteAlert "alert-3" (selectAlert "alert-3" exampleState)) = NoAlert.
Proof.
  apply (deleteAlert_removes_all "" "alert-3" NEW None (selectAlert "alert-3" exampleState)).
  reflexivity.
Defined.

(** X14. addNewAlert puts the alert in front, where a lookup of its
    identifier finds it before any older alert with the same identifier:
    an updateAlertStatus for that identifier then rewrites the new alert
    and leaves the rest of the list as it was. *)
Theorem addNewAlert_shadows (now : string) (st : AlertStatus) (notes : option string)
    (a : Alert) (s : AlertsState) :
  findAlert (alert_id a) (alerts (addNewAlert a s)) = Some (0, a)
  ∧ alerts (updateAlertStatus now (alert_id a) st notes (addNewAlert a s))
    = applyStatus now st notes a :: alerts s.
Proof.
  assert (findAlert (alert_id a) (alerts (addNewAlert a s)) = Some (0, a)) as Hf
    by (unfold addNewAlert; cbn [alerts]; by rewrite findAlert_cons, decide_True).
  split; [done|]. unfold updateAlertStatus. by rewrite Hf.
Qed.

End AlertsFacts.

(* ===================================================================== *)
(** * Properties of the notification list *)
Module UiFacts.
Import Ui.

Lemma length_addNotification ms rnd iso p s :
  (length (notifications (addNotification ms rnd iso p s)) ≤ 50)%nat.
Proof.
  unfold addNotification. cbn [notifications].
  case_bool_decide as Hlen.
  - rewrite length_take. lia.
  - lia.
Qed.

Lemma head_addNotification ms rnd iso p s :
  head (notifications (addNotification ms rnd iso p s))
  = Some (mkNotification (notificationId ms rnd) (p_message p) (p_type p) iso false).
Proof.
  unfold addNotification. cbn [notifications].
  case_bool_decide; reflexivity.
Qed.

Lemma length_dispatchNotifications acts s :
  (length (notifications s) ≤ 50)%nat →
  (length (notifications (dispatchNotifications acts s)) ≤ 50)%nat.
Proof.
  revert s. induction acts as [|a acts IH]; intros s Hs; [done|].
  change (dispatchNotifications (a :: acts) s)
    with (dispatchNotifications acts (notifyReducer s a)).
  apply IH. apply length_addNotification.
Qed.

(** C10. From a list of at most 50 notifications addNotification yields a
    list of at most 50, whose first element is the notification just
    created, unread; hence no sequence of addNotification dispatches from
    the initial state makes the list longer than 50. *)
Theorem addNotification_bounded (ms rnd : Z) (iso : string)
    (p : NotificationPayload) (s : UiState) (acts : list AddNotification) :
  (length (notifications s) ≤ 50)%nat →
  (length (notifications (addNotification ms rnd iso p s)) ≤ 50)%nat
  ∧ (∃ n, head (notifications (addNotification ms rnd iso p s)) = Some n
          ∧ message n = p_message p ∧ type n = p_type p
          ∧ id n = notificationId ms rnd ∧ timestamp n = iso
          ∧ read n = false)
  ∧ (length (notifications (dispatchNotifications acts initialState)) ≤ 50)%nat.
Proof.
  intros Hs. split_and!.
  - apply length_addNotification.
  - eexists. split; [apply head_addNotification|]. done.
  - apply length_dispatchNotifications. simpl. lia.
Qed.

Lemma addNotification_bounded_witness :
  (length (notifications
             (addNotification 1709380000000 417 "2024-03-02T11:46:40.000Z"
                (mkPayload "Disk usage above 95%" warning) initialState)) ≤ 50)%nat.
Proof.
  apply (addNotification_bounded 1709380000000 417 "2024-03-02T11:46:40.000Z"
           (mkPayload "Disk usage above 95%" warning) initialState []).
  simpl. lia.
Defined.

(** ** The list as a window on the dispatches *)

Lemma notifications_addNotification ms rnd iso p s :
  notifications (addNotification ms rnd iso p s)
  = take 50 (mkNotification (notificationId ms rnd) (p_message p) (p_type p) iso false
               :: notifications s).
Proof.
  unfold addNotification. cbn [notifications].
  case_bool_decide as Hlen; [done|].
  rewrite take_ge; [done|]. lia.
Qed.

Lemma take_app_take {A : Type} (l1 l2 : list A) (n : nat) :
  take n (l1 ++ take n l2) = take n (l1 ++ l2).
Proof. rewrite !take_app, take_take. do 2 f_equal. lia. Qed.

(** X15. The list holds the 50 most recent notifications, newest first:
    after any sequence of addNotification dispatches it is the first 50
    elements of the notifications created, latest dispatch first, followed
    by the notifications the state held. From the initial state its length
    is the number of dispatches, capped at 50. *)
Theorem notifications_most_recent_50 (acts : list AddNotification) (s : UiState) :
  (length (notifications s) ≤ 50)%nat →
  notifications (dispatchNotifications acts s)
  = take 50 (reverse (created <$> acts) ++ notifications s)
  ∧ length (notifications (dispatchNotifications acts initialState))
    = (length acts `min` 50)%nat.
Proof.
  assert (∀ s0, (length (notifications s0) ≤ 50)%nat →
            notifications (dispatchNotifications acts s0)
            = take 50 (reverse (created <$> acts) ++ notifications s0)) as Hclosed.
  { induction acts as [|a acts IH]; intros s0 Hs0.
    - simpl. by rewrite take_ge.
    - change (dispatchNotifications (a :: acts) s0)
        with (dispatchNotifications acts (notifyReducer s0 a)).
      rewrite IH by apply length_addNotification.
      unfold notifyReducer. rewrite notifications_addNotification.
      rewrite take_app_take, fmap_cons, reverse_cons, <- app_assoc. done. }
  intros Hs. split; [by apply Hclosed|].
  rewrite Hclosed by (simpl; lia). simpl.
  rewrite app_nil_r, length_take, length_reverse, length_fmap. lia.
Qed.

Lemma notifications_most_recent_50_witness :
  notifications (dispatchNotifications
    [mkAdd 1709380000000 417 "2024-03-02T11:46:40.000Z" (mkPayload "first" info);
     mkAdd 1709380000500 8 "2024-03-02T11:46:40.500Z" (mkPayload "second" error)]
    initialState)
  = [mkNotification "notification-1709380000500-8" "second" error
       "2024-03-02T11:46:40.500Z" false;
     mkNotification "notification-1709380000000-417" "first" info
       "2024-03-02T11:46:40.000Z" false].
Proof.
  refine (eq_trans (proj1 (notifications_most_recent_50 _ initialState _)) _).
  - simpl. lia.
  - vm_compute. reflexivity.
Defined.

(** ** Marking notifications as read *)

Lemma filter_none {A : Type} (P : A → Prop) `{∀ x, Decision (P x)} (l : list A) :
  Forall (λ x, ¬ P x) l → filter P l = [].
Proof.
  induction 1 as [|x l Hx Hl IH]; [done|].
  by rewrite filter_cons_False.
Qed.

(** X16. markAllNotificationsAsRead leaves every notification read and
    changes nothing else of them (same identifiers, messages, types and
    timestamps, in the same order); doing it twice is doing it once; and a
    notification added afterwards is the only unread one of the list. *)
Theorem markAll_then_add (ms rnd : Z) (iso : string) (p : NotificationPayload)
    (s : UiState) :
  let s' := markAllNotificationsAsRead s in
  Forall (λ n, read n = true) (notifications s')
  ∧ id <$> notifications s' = id <$> notifications s
  ∧ message <$> notifications s' = message <$> notifications s
  ∧ type <$> notifications s' = type <$> notifications s
  ∧ timestamp <$> notifications s' = timestamp <$> notifications s
  ∧ markAllNotificationsAsRead s' = s'
  ∧ filter (λ n, read n = false) (notifications (addNotification ms rnd iso p s'))
    = [mkNotification (notificationId ms rnd) (p_message p) (p_type p) iso false].
Proof.
  intros s'. subst s'. unfold markAllNotificationsAsRead. cbn [notifications].
  split_and!.
  - apply Forall_fmap, Forall_true. done.
  - by rewrite <- list_fmap_compose.
  - by rewrite <- list_fmap_compose.
  - by rewrite <- list_fmap_compose.
  - by rewrite <- list_fmap_compose.
  - f_equal. rewrite <- list_fmap_compose. by apply list_fmap_ext.
  - rewrite notifications_addNotification. cbn [notifications take].
    rewrite filter_cons_True by done. f_equal.
    apply filter_none, Forall_take, Forall_fmap, Forall_true. done.
Qed.

(** X17. markNotificationAsRead marks the first notification carrying the
    identifier and nothing else: with no such notification the state is
    returned unchanged; otherwise that notification becomes read with its
    other fields kept, every other position holds what it held (a later
    notification with the same identifier stays as it is), and no
    notification that was read becomes unread. *)
Theorem markNotificationAsRead_first_only (k : string) (s : UiState) :
  (list_find (λ n, id n = k) (notifications s) = None →
   markNotificationAsRead k s = s)
  ∧ (∀ i n, list_find (λ n, id n = k) (notifications s) = Some (i, n) →
       notifications (markNotificationAsRead k s) !! i = Some (markRead n)
       ∧ length (notifications (markNotificationAsRead k s)) = length (notifications s)
       ∧ (∀ j, j ≠ i →
            notifications (markNotificationAsRead k s) !! j = notifications s !! j)
       ∧ (∀ j m, notifications s !! j = Some m → read m = true →
            ∃ m', notifications (markNotificationAsRead k s) !! j = Some m'
                  ∧ read m' = true)).
Proof.
  unfold markNotificationAsRead. split; [by intros ->|].
  intros i n Hf. rewrite Hf. cbn [notifications].
  apply list_find_Some in Hf as (Hi & _ & _).
  pose proof (lookup_lt_Some _ _ _ Hi) as Hlt.
  split_and!.
  - by apply list_lookup_insert_eq.
  - apply length_insert.
  - intros j Hne. by apply list_lookup_insert_ne.
  - intros j m Hj Hread. destruct (decide (j = i)) as [->|Hne].
    + exists (markRead n). by rewrite list_lookup_insert_eq.
    + exists m. by rewrite list_lookup_insert_ne.
Qed.

Lemma markNotificationAsRead_first_only_witness :
  markNotificationAsRead "notification-1-1"
    (addNotification 1709380000000 417 "2024-03-02T11:46:40.000Z"
       (mkPayload "Disk usage above 95%" warning) initialState)
  = addNotification 1709380000000 417 "2024-03-02T11:46:40.000Z"
      (mkPayload "Disk usage above 95%" warning) initialState.
Proof.
  apply (markNotificationAsRead_first_only "notification-1-1"). vm_compute. reflexivity.
Defined.

End UiFacts.

(* ===================================================================== *)
(** * Properties of the calendar preparation *)
Module CalendarFacts.
Import Calendar.

Lemma half_is_not_medium : slotValue None ≠ levelValue medium.
Proof.
  intros H. apply (f_equal (λ x, PrimFloat.eqb x 0.5)) in H.
  vm_compute in H. discriminate.
Qed.

Lemma cell_of_prepareCalendarData w day t :
  day ∈ days → t ∈ timeSlots →
  mkCell day t (slotValue (findSlot w day t)) ∈ prepareCalendarData (Some w).
Proof.
  intros Hd Ht. unfold prepareCalendarData.
  apply list_elem_of_bind. exists day. split; [|done].
  apply list_elem_of_fmap. by exists t.
Qed.

(** C7, counterexample. In the empty calendar Monday 10:00-12:00 has no
    entry; its cell gets 0.5, while the same cell of a calendar holding a
    medium slot there gets 0.6, a different number. *)
Lemma missing_slot_differs_from_medium :
  findSlot ∅ "Monday" "10:00-12:00" = None
  ∧ (risk_level <$> findSlot mondayMedium "Monday" "10:00-12:00") = Some medium
  ∧ (value <$> head (prepareCalendarData (Some ∅))) = Some 0.5%float
  ∧ (value <$> head (prepareCalendarData (Some mondayMedium))) = Some 0.6%float
  ∧ slotValue (findSlot ∅ "Monday" "10:00-12:00")
    ≠ slotValue (findSlot mondayMedium "Monday" "10:00-12:00").
Proof.
  split_and!; try reflexivity. exact half_is_not_medium.
Qed.

(** C7, amended. A (day, slot) pair of the grid with no entry in the
    calendar gets the value 0.5. That is not the value 0.6 of a medium
    slot; it lies between the values of low and medium, and the heatmap
    puts both 0.5 and 0.6 in its Medium band. *)
Theorem missing_slot_value (w : gmap string (list OptimalWindow)) (day t : string) :
  findSlot w day t = None → day ∈ days → t ∈ timeSlots →
  mkCell day t 0.5%float ∈ prepareCalendarData (Some w)
  ∧ slotValue (findSlot w day t) = 0.5%float
  ∧ slotValue (findSlot w day t) ≠ levelValue medium
  ∧ PrimFloat.ltb (levelValue low) 0.5 = true
  ∧ PrimFloat.ltb 0.5 (levelValue medium) = true
  ∧ bandLabel 0.5 = "Medium"
  ∧ bandLabel (levelValue medium) = "Medium".
Proof.
  intros Hnone Hd Ht.
  pose proof (cell_of_prepareCalendarData w day t Hd Ht) as Hcell.
  rewrite Hnone in *. simpl in Hcell.
  split_and!; try reflexivity; [done | exact half_is_not_medium].
Qed.

Lemma missing_slot_value_witness :
  mkCell "Sunday" "14:00-16:00" 0.5%float ∈ prepareCalendarData (Some mondayMedium).
Proof.
  apply (missing_slot_value mondayMedium "Sunday" "14:00-16:00").
  - reflexivity.
  - apply (bool_decide_unpack _). vm_compute. exact I.
  - apply (bool_decide_unpack _). vm_compute. exact I.
Defined.

(** ** The grid and its labels *)

Lemma cells_of_prepareCalendarData w :
  prepareCalendarData (Some w)
  = (λ dt, mkCell dt.1 dt.2 (slotValue (findSlot w dt.1 dt.2))) <$> grid.
Proof. reflexivity. Qed.

(** X25. prepareCalendarData always produces the same grid: nothing when
    the windows are not loaded, otherwise 14 cells, the seven days from
    Monday to Sunday with the two time slots each, in that order, whatever
    days and slots the calendar holds; entries of the calendar for other
    days or other time slots show nowhere, and every cell carries the value
    of the slot the calendar holds for it. *)
Theorem prepareCalendarData_grid (w : gmap string (list OptimalWindow)) :
  prepareCalendarData None = []
  ∧ (λ c, (c_day c, c_time c)) <$> prepareCalendarData (Some w) = grid
  ∧ length (prepareCalendarData (Some w)) = 14
  ∧ (∀ c, c ∈ prepareCalendarData (Some w) →
       value c = slotValue (findSlot w (c_day c) (c_time c)))
  ∧ (∀ w', (∀ day t, (day, t) ∈ grid → findSlot w' day t = findSlot w day t) →
       prepareCalendarData (Some w') = prepareCalendarData (Some w)).
Proof.
  rewrite cells_of_prepareCalendarData. split_and!.
  - done.
  - rewrite <- list_fmap_compose. rewrite <- (list_fmap_id grid) at 2.
    apply list_fmap_ext. by intros i [d t] _.
  - by rewrite length_fmap.
  - intros c (dt & -> & _)%list_elem_of_fmap. done.
  - intros w' Hw'. rewrite cells_of_prepareCalendarData.
    apply list_fmap_ext. intros i [d t] Hi. simpl.
    rewrite Hw'; [done|]. by eapply list_elem_of_lookup_2.
Qed.

Lemma prepareCalendarData_grid_witness :
  prepareCalendarData (Some (<["Holiday" := [mkWindow "10:00-12:00" high]]> mondayMedium))
  = prepareCalendarData (Some mondayMedium).
Proof.
  apply (prepareCalendarData_grid mondayMedium).
  intros day t Hin.
  unfold findSlot. rewrite lookup_insert_ne; [done|].
  intros <-. revert Hin. apply (bool_decide_unpack _). vm_compute. exact I.
Defined.

(** X26. The tooltip of the heatmap names the level the calendar holds: a
    cell prepared from a low, medium or high slot is labelled Low, Medium
    or High, and a cell with no slot is labelled Medium. *)
Theorem tooltip_names_the_level (w : gmap string (list OptimalWindow)) (c : Cell) :
  c ∈ prepareCalendarData (Some w) →
  bandLabel (value c)
  = match findSlot w (c_day c) (c_time c) with
    | Some slot => levelName (risk_level slot)
    | None => "Medium"
    end.
Proof.
  rewrite cells_of_prepareCalendarData.
  intros (dt & -> & _)%list_elem_of_fmap. simpl.
  destruct (findSlot w dt.1 dt.2) as [slot|]; [|reflexivity].
  simpl. by destruct (risk_level slot).
Qed.

Lemma tooltip_names_the_level_witness :
  bandLabel (value (mkCell "Monday" "10:00-12:00" 0.6)) = "Medium".
Proof.
  refine (tooltip_names_the_level mondayMedium (mkCell "Monday" "10:00-12:00" 0.6) _).
  apply (cell_of_prepareCalendarData mondayMedium "Monday" "10:00-12:00").
  - apply (bool_decide_unpack _). vm_compute. exact I.
  - apply (bool_decide_unpack _). vm_compute. exact I.
Defined.

End CalendarFacts.

(* ===================================================================== *)
(** * Properties of the dashboard figures *)
Module DashboardFacts.
Import Dashboard.

Lemma countWhere_cons {A : Type} (P : A → Prop) `{∀ x, Decision (P x)} x l :
  countWhere P (x :: l) = ((if decide (P x) then 1 else 0) + countWhere P l)%nat.
Proof.
  unfold countWhere. destruct (decide (P x)).
  - by rewrite filter_cons_True.
  - by rewrite filter_cons_False.
Qed.

Lemma countWhere_insert {A : Type} (P : A → Prop) `{∀ x, Decision (P x)}
    (l : list A) i x y :
  l !! i = Some x →
  (countWhere P (<[i := y]> l) + (if decide (P x) then 1 else 0)
   = countWhere P l + (if decide (P y) then 1 else 0))%nat.
Proof.
  revert i. induction l as [|z l IH]; intros i Hi; [done|].
  destruct i as [|i]; simpl in *.
  - injection Hi as ->. rewrite !countWhere_cons. lia.
  - rewrite !countWhere_cons. specialize (IH i Hi). lia.
Qed.

Lemma severity_counts (l : list Alerts.Alert) :
  (countWhere (λ a, Alerts.severity a = Alerts.CRITICAL) l
   + countWhere (λ a, Alerts.severity a = Alerts.HIGH) l
   + countWhere (λ a, Alerts.severity a = Alerts.MEDIUM) l
   + countWhere (λ a, Alerts.severity a = Alerts.LOW) l
   + countWhere (λ a, Alerts.severity a = Alerts.INFO) l
   = length l)%nat.
Proof.
  induction l as [|a l IH]; [done|].
  rewrite !countWhere_cons. simpl.
  destruct (Alerts.severity a); repeat case_decide; try done; lia.
Qed.

Lemma status_counts (l : list Alerts.Alert) :
  (countWhere (λ a, Alerts.status a = Alerts.NEW) l
   + countWhere (λ a, Alerts.status a = Alerts.ACKNOWLEDGED) l
   + countWhere (λ a, Alerts.status a = Alerts.IN_PROGRESS) l
   + countWhere (λ a, Alerts.status a = Alerts.RESOLVED) l
   + countWhere (λ a, Alerts.status a = Alerts.CLOSED) l
   = length l)%nat.
Proof.
  induction l as [|a l IH]; [done|].
  rewrite !countWhere_cons. simpl.
  destruct (Alerts.status a); repeat case_decide; try done; lia.
Qed.

Lemma unread_counts (l : list Alerts.Alert) :
  (unreadAlerts l
   = countWhere (λ a, Alerts.status a = Alerts.NEW) l
     + countWhere (λ a, Alerts.status a = Alerts.ACKNOWLEDGED) l)%nat.
Proof.
  unfold unreadAlerts. induction l as [|a l IH]; [done|].
  rewrite !countWhere_cons, IH.
  destruct (Alerts.status a); repeat case_decide; try done; try lia;
    exfalso; intuition congruence.
Qed.

(** X18. The alert counters of the dashboard leave two groups out: the
    four severity counters add up to the number of alerts whose severity is
    not info, and the four status counters to the number of alerts that are
    not closed. The badge of the layout is the sum of the new and the
    acknowledged counters. *)
Theorem alertStats_totals (alerts : list Alerts.Alert) :
  let st := alertStats alerts in
  (alerts_critical st + alerts_high st + alerts_medium st + alerts_low st
   + countWhere (λ a, Alerts.severity a = Alerts.INFO) alerts
   = length alerts)%nat
  ∧ (alerts_new st + alerts_acknowledged st + alerts_inProgress st + alerts_resolved st
     + countWhere (λ a, Alerts.status a = Alerts.CLOSED) alerts
     = length alerts)%nat
  ∧ (unreadAlerts alerts = alerts_new st + alerts_acknowledged st)%nat.
Proof.
  simpl. split_and!.
  - apply severity_counts.
  - apply status_counts.
  - apply unread_counts.
Qed.

(** The badge before and after one dispatch, whatever the two statuses. *)
Lemma badge_change now id st notes s i a :
  Alerts.findAlert id (Alerts.alerts s) = Some (i, a) →
  (unreadAlerts (Alerts.alerts (Alerts.updateAlertStatus now id st notes s))
   + (if decide (Alerts.status a = Alerts.NEW ∨ Alerts.status a = Alerts.ACKNOWLEDGED)
      then 1 else 0)
   = unreadAlerts (Alerts.alerts s)
     + (if decide (st = Alerts.NEW ∨ st = Alerts.ACKNOWLEDGED) then 1 else 0))%nat.
Proof.
  intros Hf. pose proof (AlertsFacts.findAlert_Some _ _ _ _ Hf) as [Hi _].
  unfold Alerts.updateAlertStatus. rewrite Hf. simpl.
  unfold unreadAlerts.
  pose proof (countWhere_insert
                (λ a, Alerts.status a = Alerts.NEW ∨ Alerts.status a = Alerts.ACKNOWLEDGED)
                _ _ _ (Alerts.applyStatus now st notes a) Hi) as H.
  cbv beta in H.
  destruct (AlertsFacts.applyStatus_fields now st notes a) as (_ & Hst & _).
  rewrite Hst in H. exact H.
Qed.

(** X19. Taking an alert that is new or acknowledged to in_progress,
    resolved or closed with updateAlertStatus lowers the badge of the
    layout by exactly one; an identifier carried by no alert leaves the
    badge as it is. *)
Theorem badge_drops_by_one (now id : string) (st : Alerts.AlertStatus)
    (notes : option string) (s : Alerts.AlertsState) (i : nat) (a : Alerts.Alert) :
  (Alerts.findAlert id (Alerts.alerts s) = Some (i, a) →
   Alerts.status a = Alerts.NEW ∨ Alerts.status a = Alerts.ACKNOWLEDGED →
   st = Alerts.IN_PROGRESS ∨ st = Alerts.RESOLVED ∨ st = Alerts.CLOSED →
   S (unreadAlerts (Alerts.alerts (Alerts.updateAlertStatus now id st notes s)))
   = unreadAlerts (Alerts.alerts s))
  ∧ (Alerts.findAlert id (Alerts.alerts s) = None →
     unreadAlerts (Alerts.alerts (Alerts.updateAlertStatus now id st notes s))
     = unreadAlerts (Alerts.alerts s)).
Proof.
  split.
  - intros Hf Hold Hnew. pose proof (badge_change now id st notes s i a Hf) as H.
    rewrite decide_True in H by done.
    rewrite decide_False in H by (intros [?|?]; destruct Hnew as [?|[?|?]]; congruence).
    lia.
  - intros Hf. by rewrite AlertsFacts.updateAlertStatus_unknown.
Qed.

Lemma badge_drops_by_one_witness :
  S (unreadAlerts (Alerts.alerts
       (Alerts.updateAlertStatus "2024-03-02T00:00:00.000Z" "alert-1" Alerts.RESOLVED None
          Alerts.exampleState)))
  = unreadAlerts (Alerts.alerts Alerts.exampleState).
Proof.
  apply (badge_drops_by_one "2024-03-02T00:00:00.000Z" "alert-1" Alerts.RESOLVED None
           Alerts.exampleState 0 Alerts.diskAlert).
  - reflexivity.
  - right. reflexivity.
  - right. left. reflexivity.
Defined.

Lemma component_status_counts (l : list Infrastructure.InfrastructureComponent) :
  (countWhere (λ c, Infrastructure.status c = Infrastructure.HEALTHY) l
   + countWhere (λ c, Infrastructure.status c = Infrastructure.DEGRADED) l
   + countWhere (λ c, Infrastructure.status c = Infrastructure.WARNING) l
   + countWhere (λ c, Infrastructure.status c = Infrastructure.CRITICAL) l
   + countWhere (λ c, Infrastructure.status c = Infrastructure.MAINTENANCE) l
   + countWhere (λ c, Infrastructure.status c = Infrastructure.UNKNOWN) l
   = length l)%nat.
Proof.
  induction l as [|a l IH]; [done|].
  rewrite !countWhere_cons. simpl.
  destruct (Infrastructure.status a); repeat case_decide; try done; lia.
Qed.

(** X20. The component counters of the dashboard have no counter for the
    status unknown: healthy, degraded, warning, critical and maintenance add
    up to the total minus the number of components of unknown status, so
    they add up to the total exactly when no component is unknown. *)
Theorem componentStats_totals (m : gmap string Infrastructure.InfrastructureComponent) :
  let st := componentStats m in
  (components_healthy st + components_degraded st + components_warning st
   + components_critical st + components_maintenance st
   + countWhere (λ c, Infrastructure.status c = Infrastructure.UNKNOWN) (values m)
   = components_total st)%nat
  ∧ components_total st = length (values m).
Proof.
  simpl. assert (size m = length (values m)) as Hsize.
  { unfold values. by rewrite length_fmap, length_map_to_list. }
  split; [|done]. rewrite Hsize. apply component_status_counts.
Qed.

End DashboardFacts.

(* ===================================================================== *)
(** * Properties of the graph preparation *)
Module GraphFacts.
Import Infrastructure Graph.

Lemma recolourIn_columns ids st ns :
  id <$> recolourIn ids st ns = id <$> ns
  ∧ n_name <$> recolourIn ids st ns = n_name <$> ns
  ∧ n_type <$> recolourIn ids st ns = n_type <$> ns.
Proof.
  unfold recolourIn. rewrite <- !list_fmap_compose.
  split_and!; apply list_fmap_ext; intros i n _; simpl; by case_bool_decide.
Qed.

Lemma colourDomainsFrom_columns i domains ns :
  id <$> colourDomainsFrom i domains ns = id <$> ns
  ∧ n_name <$> colourDomainsFrom i domains ns = n_name <$> ns
  ∧ n_type <$> colourDomainsFrom i domains ns = n_type <$> ns.
Proof.
  revert i ns. induction domains as [|d ds IH]; intros i ns; [done|].
  simpl. destruct (IH (S i) (recolourIn d (domainColor i) ns)) as (-> & -> & ->).
  apply recolourIn_columns.
Qed.

Lemma baseNodes_columns vals :
  id <$> baseNodes vals = component_id <$> vals
  ∧ n_name <$> baseNodes vals = name <$> vals
  ∧ n_type <$> baseNodes vals = component_type <$> vals.
Proof. unfold baseNodes. by rewrite <- !list_fmap_compose. Qed.

(** X21. The graph has one link per recorded dependency, from the
    dependent to the dependency and of value 1: a link from s to t is in
    the graph exactly when some component with identifier s lists t among
    its dependencies, and the number of links is the total number of
    dependency entries. Dependents lists play no part. *)
Theorem baseLinks_are_dependencies (vals : list InfrastructureComponent) :
  (∀ l, l ∈ baseLinks vals ↔
        value l = 1%Z
        ∧ ∃ c, c ∈ vals ∧ component_id c = source l ∧ target l ∈ dependencies c)
  ∧ length (baseLinks vals) = sum_list (length ∘ dependencies <$> vals).
Proof.
  split.
  - intros l. unfold baseLinks. rewrite list_elem_of_bind. split.
    + intros (c & Hl & Hc). apply list_elem_of_fmap in Hl as (t & -> & Ht).
      simpl. eauto.
    + intros (Hv & c & Hc & Hs & Ht). exists c. split; [|done].
      apply list_elem_of_fmap. exists (target l). split; [|done].
      destruct l; simpl in *. by subst.
  - unfold baseLinks. induction vals as [|c vals IH]; [done|].
    cbn [mbind list_bind fmap list_fmap sum_list]. simpl.
    rewrite length_app, length_fmap. f_equal. exact IH.
Qed.

Lemma lookup_recolourIn ids st ns j n :
  ns !! j = Some n →
  recolourIn ids st ns !! j
  = Some (if bool_decide (id n ∈ ids) then recolour st n else n).
Proof. intros Hj. unfold recolourIn. by rewrite list_lookup_fmap, Hj. Qed.

Lemma colour_untouched i domains ns j n :
  ns !! j = Some n →
  (∀ k d, domains !! k = Some d → id n ∉ d) →
  colourDomainsFrom i domains ns !! j = Some n.
Proof.
  revert i ns. induction domains as [|d ds IH]; intros i ns Hj Hout; [done|].
  simpl. apply IH.
  - rewrite (lookup_recolourIn _ _ _ _ _ Hj).
    rewrite bool_decide_eq_false_2; [done|]. by apply (Hout 0).
  - intros k d' Hk. by apply (Hout (S k)).
Qed.

Lemma colour_last i domains ns j n k d :
  ns !! j = Some n →
  domains !! k = Some d → id n ∈ d →
  (∀ k' d', k < k' → domains !! k' = Some d' → id n ∉ d') →
  colourDomainsFrom i domains ns !! j = Some (recolour (domainColor (i + k)) n).
Proof.
  revert i ns n k. induction domains as [|d0 ds IH]; intros i ns n k Hj Hk Hin Hlast;
    [done|].
  pose proof (lookup_recolourIn d0 (domainColor i) _ _ _ Hj) as Hj1.
  destruct k as [|k]; simpl in *.
  - injection Hk as ->. rewrite bool_decide_eq_true_2 in Hj1 by done.
    rewrite Nat.add_0_r. apply (colour_untouched _ _ _ _ _ Hj1).
    intros k d' Hk'. apply (Hlast (S k)); [lia|done].
  - assert (∀ k' d', k < k' → ds !! k' = Some d' → id n ∉ d') as Hlast'
      by (intros k' d' Hlt Hk'; apply (Hlast (S k')); [lia|done]).
    replace (i + S k) with (S i + k) by lia.
    case_bool_decide.
    + rewrite (IH _ _ _ _ Hj1 Hk) by done. done.
    + by rewrite (IH _ _ _ _ Hj1 Hk).
Qed.

(** X22. On the failure-domain tab a component named by several domains is
    drawn in the colour of the last domain naming it, a component named by
    none keeps its status, and the colours repeat every five domains: the
    sixth domain is drawn like the first. *)
Theorem last_domain_wins (domains : list (list string)) (ns : list Node)
    (j : nat) (n : Node) :
  ns !! j = Some n →
  (∀ k d, domains !! k = Some d → id n ∈ d →
     (∀ k' d', k < k' → domains !! k' = Some d' → id n ∉ d') →
     colourDomainsFrom 0 domains ns !! j = Some (recolour (domainColor k) n))
  ∧ ((∀ k d, domains !! k = Some d → id n ∉ d) →
     colourDomainsFrom 0 domains ns !! j = Some n)
  ∧ (∀ k, domainColor (k + 5) = domainColor k).
Proof.
  intros Hj. split_and!.
  - intros k d Hk Hin Hlast. by apply (colour_last 0 _ _ _ _ k d).
  - by apply colour_untouched.
  - intros k. unfold domainColor. simpl length.
    replace (k + 5) with (k + 1 * 5) by lia. by rewrite Nat.Div0.mod_add.
Qed.

Lemma last_domain_wins_witness :
  colourDomainsFrom 0 [["web"; "db"]; ["cache"]; ["db"]]
    (baseNodes [Infrastructure.web; Infrastructure.db]) !! 1
  = Some (recolour DEGRADED (mkNode "db" "Orders database" DATABASE HEALTHY)).
Proof.
  refine (proj1 (last_domain_wins [["web"; "db"]; ["cache"]; ["db"]]
                   (baseNodes [Infrastructure.web; Infrastructure.db]) 1
                   (mkNode "db" "Orders database" DATABASE HEALTHY) eq_refl)
            2 ["db"] eq_refl _ _).
  - apply (bool_decide_unpack _). vm_compute. exact I.
  - intros k' d' Hlt Hk'. destruct k' as [|[|[|k']]]; try lia. discriminate.
Defined.

(** X23. Highlighting only recolours. Whatever the tab and the analysis
    results, the graph is set exactly when there is at least one component,
    its nodes are the components in their order with their identifiers,
    names and types, and its links are the dependency links; with no
    analysis result at hand the nodes carry the components' own statuses. *)
Theorem prepareGraphData_recolours_only (tabValue : Z)
    (healthStatus impactAnalysis failureDomains : option AnalysisResult)
    (vals : list InfrastructureComponent) :
  (prepareGraphData tabValue healthStatus impactAnalysis failureDomains vals = None
   ↔ vals = [])
  ∧ (∀ g, prepareGraphData tabValue healthStatus impactAnalysis failureDomains vals
          = Some g →
       id <$> nodes g = component_id <$> vals
       ∧ n_name <$> nodes g = name <$> vals
       ∧ n_type <$> nodes g = component_type <$> vals
       ∧ links g = baseLinks vals)
  ∧ prepareGraphData tabValue None None None vals
    = if bool_decide (0 < length vals)
      then Some (mkGraph (baseNodes vals) (baseLinks vals)) else None.
Proof.
  unfold prepareGraphData. split_and!.
  - case_bool_decide as Hlen.
    + split; [done|]. intros ->. simpl in Hlen. lia.
    + split; [|done]. intros _. destruct vals; [done|]. simpl in Hlen. lia.
  - intros g. case_bool_decide; [|done]. intros [= <-]. cbn [nodes links].
    destruct (baseNodes_columns vals) as (Hid & Hname & Htype).
    repeat case_match; subst;
      rewrite ?(proj1 (recolourIn_columns _ _ _)),
        ?(proj1 (proj2 (recolourIn_columns _ _ _))),
        ?(proj2 (proj2 (recolourIn_columns _ _ _))),
        ?(proj1 (colourDomainsFrom_columns _ _ _)),
        ?(proj1 (proj2 (colourDomainsFrom_columns _ _ _))),
        ?(proj2 (proj2 (colourDomainsFrom_columns _ _ _))); done.
  - case_bool_decide; [|done]. by repeat case_match.
Qed.

Lemma prepareGraphData_recolours_only_witness :
  prepareGraphData 2 None None None [] = None.
Proof.
  exact (proj2 (proj1 (prepareGraphData_recolours_only 2 None None None [])) eq_refl).
Defined.

End GraphFacts.

(* ===================================================================== *)
(** * Properties of the predictions slice *)
Module PredictionsFacts.
Import Predictions.

Lemma findPrediction_Some k l i p :
  findPrediction k l = Some (i, p) → l !! i = Some p ∧ deployment_id p = k.
Proof. unfold findPrediction. intros (? & ? & _)%list_find_Some. done. Qed.

Lemma findPrediction_same_ids (l l' : list DeploymentPrediction) k i p :
  deployment_id <$> l' = deployment_id <$> l →
  findPrediction k l = Some (i, p) →
  ∃ p', l' !! i = Some p' ∧ findPrediction k l' = Some (i, p').
Proof.
  intros Hids (Hi & Hid & Hmin)%list_find_Some.
  assert (∀ j, deployment_id <$> l' !! j = deployment_id <$> l !! j) as Hcol
    by (intros j; by rewrite <- !list_lookup_fmap, Hids).
  pose proof (Hcol i) as Hci. rewrite Hi in Hci. simpl in Hci.
  destruct (l' !! i) as [p'|] eqn:Hi'; [|done]. injection Hci as Hidp.
  exists p'. split; [done|]. apply list_find_Some. split_and!; [done|congruence|].
  intros j y' Hj' Hlt Hy'. pose proof (Hcol j) as Hcj. rewrite Hj' in Hcj.
  destruct (l !! j) as [y|] eqn:Hj; [|done]. injection Hcj as Hidy.
  apply (Hmin j y Hj Hlt). congruence.
Qed.

Lemma selection_current_updatePrediction payload s :
  selection_current s → selection_current (updatePrediction payload s).
Proof.
  unfold selection_current, updatePrediction.
  destruct (findPrediction (deployment_id payload) (predictions s))
    as [[idx old]|] eqn:Hp; [|done].
  pose proof (findPrediction_Some _ _ _ _ Hp) as [Hidx Hold]. simpl.
  assert (deployment_id <$> <[idx := payload]> (predictions s)
          = deployment_id <$> predictions s) as Hids.
  { rewrite list_fmap_insert. apply list_insert_id.
    rewrite list_lookup_fmap, Hidx. simpl. by rewrite Hold. }
  destruct (selectedPrediction s) as [sel|] eqn:Hsel; [|done].
  intros [i Hf]. case_bool_decide as Hid.
  - destruct (findPrediction_same_ids _ _ _ _ _ Hids Hp) as (p' & Hi' & Hf').
    rewrite list_lookup_insert_eq in Hi' by (by eapply lookup_lt_Some).
    injection Hi' as <-. by exists idx.
  - destruct (findPrediction_same_ids _ _ _ _ _ Hids Hf) as (p' & Hi' & Hf').
    pose proof (findPrediction_Some _ _ _ _ Hf) as [Hi _].
    rewrite list_lookup_insert_ne in Hi' by (intros ->; congruence).
    exists i. congruence.
Qed.

(** X24. The selected prediction follows the list: from a state where it is
    the first prediction with its identifier (the initial state is one),
    selecting, clearing, loading the windows and updatePrediction keep it
    so; updatePrediction replaces the selected copy together with the list
    element. Selecting an identifier carried by no prediction clears the
    selection. *)
Theorem selected_prediction_stays_current (acts : list Action) (s : PredictionsState)
    (k : string) :
  Forall (λ a, brings_predictions a = false) acts →
  selection_current s →
  selection_current (dispatch acts s)
  ∧ (findPrediction k (predictions s) = None →
     selectedPrediction (selectPrediction k s) = None).
Proof.
  intros Hacts Hs. split.
  - revert s Hacts Hs. induction acts as [|a acts IH]; intros s Hacts Hs; [done|].
    apply Forall_cons in Hacts as [Ha Hacts]. simpl. apply IH; [done|].
    destruct a; try discriminate; unfold reducer.
    + unfold selection_current, selectPrediction. cbn [selectedPrediction predictions].
      destruct (findPrediction k0 (predictions s)) as [[i p]|] eqn:Hf; simpl; [|done].
      exists i. by pose proof (findPrediction_Some _ _ _ _ Hf) as [_ ->].
    + exact I.
    + exact Hs.
    + by apply selection_current_updatePrediction.
  - intros Hf. unfold selectPrediction. simpl. by rewrite Hf.
Qed.

Lemma selected_prediction_stays_current_witness :
  selection_current (dispatch
    [SelectPrediction "deploy-2";
     UpdatePrediction (mkPrediction "deploy-2" ["cache"; "queue"] 0.5 [] [] None
                         "2024-03-02T09:00:00.000Z");
     UpdatePrediction (mkPrediction "deploy-9" [] 0.5 [] [] None "")] exampleState).
Proof.
  apply (selected_prediction_stays_current _ exampleState "deploy-2").
  - repeat constructor.
  - exact I.
Defined.

End PredictionsFacts.
